(** * Subdomain enumeration ([subdomain_enum.py]): model and properties

    The script queries four public data sources for the subdomains of a
    target domain, merges the four answers into one set and prints the
    sorted result.  This development embeds the script function by
    function and proves the properties its specification states.

    Modelling conventions.
    - A Python [str] is a [string]; a character is a code point of the
      Latin-1 range (0..255).  [str.lower], [str.strip] and the regular
      expression class [\w] are written out for that range as CPython
      defines them.  The pattern scan is written out a second time,
      in [Uni], over Latin-1 and the characters outside it that
      [re.IGNORECASE] matches with an ASCII letter.
    - A Python [set] of strings is a [gset string]; [sorted] is a merge
      sort of its elements by code-point order.
    - The network is a function from the requested URL to what
      [requests.get] does there; request headers and the time-out only
      influence that outcome.
    - The body of a [try] block is a computation over the local variable
      [subdomains] that may raise; the handler keeps [subdomains] as it is
      at the raise.
    - The four tasks share nothing: each builds a set of its own, and
      only the coordinator's loop updates [all_subdomains].  A run is
      therefore determined by the network and by the order in which
      [as_completed] yields the four futures.
    - The [print] calls are left out: no property below is about the
      console. *)

From Stdlib Require Import Ascii NArith.
From stdpp Require Import gmap strings list sorting.

Open Scope string_scope.

(** ** Characters *)

Module Char.

Definition code (c : ascii) : N := N_of_ascii c.

Definition between (lo hi : N) (c : ascii) : bool :=
  ((lo <=? code c) && (code c <=? hi))%N.

Definition exactly (n : N) (c : ascii) : bool := (code c =? n)%N.

(** Code points with a lowercase mapping: [A-Z] and the Latin-1 capitals
    (all of 0xC0..0xDE but the multiplication sign 0xD7). *)
Definition isupper (c : ascii) : bool :=
  between 65 90 c || between 192 214 c || between 216 222 c.

Definition lower (c : ascii) : ascii :=
  if isupper c then ascii_of_N (code c + 32) else c.

(** [str.isspace] on one character. *)
Definition isspace (c : ascii) : bool :=
  between 9 13 c || between 28 32 c || exactly 133 c || exactly 160 c.

(** [str.isalnum] on one character. *)
Definition isalnum (c : ascii) : bool :=
  between 48 57 c || between 65 90 c || between 97 122 c
  || exactly 170 c || exactly 178 c || exactly 179 c
  || exactly 181 c || exactly 185 c || exactly 186 c
  || between 188 190 c || between 192 214 c || between 216 246 c
  || between 248 255 c.

(** The regular expression class [\w]. *)
Definition isword (c : ascii) : bool := isalnum c || exactly 95 c.

End Char.

(** ** Strings *)

Module Str.

Fixpoint map (f : ascii → ascii) (s : string) : string :=
  match s with
  | "" => ""
  | String c s' => String (f c) (map f s')
  end.

(** [s.lower()] *)
Definition lower (s : string) : string := map Char.lower s.

Fixpoint lstrip (s : string) : string :=
  match s with
  | "" => ""
  | String c s' => if Char.isspace c then lstrip s' else s
  end.

Fixpoint rstrip (s : string) : string :=
  match s with
  | "" => ""
  | String c s' =>
      match rstrip s' with
      | "" => if Char.isspace c then "" else String c ""
      | r => String c r
      end
  end.

(** [s.strip()] *)
Definition strip (s : string) : string := lstrip (rstrip s).

Fixpoint drop (n : nat) (s : string) : string :=
  match n, s with
  | S n', String _ s' => drop n' s'
  | _, _ => s
  end.

Fixpoint take (n : nat) (s : string) : string :=
  match n, s with
  | S n', String c s' => String c (take n' s')
  | _, _ => ""
  end.

(** [s.startswith(p)] *)
Fixpoint startswith (s p : string) {struct p} : bool :=
  match p, s with
  | "", _ => true
  | String _ _, "" => false
  | String a p', String b s' => Ascii.eqb a b && startswith s' p'
  end.

(** [s.endswith(d)]: the last [len(d)] characters of [s] are [d]. *)
Definition endswith (s d : string) : bool :=
  (String.length d <=? String.length s)%nat
  && String.eqb (drop (String.length s - String.length d) s) d.

(** [sub in s] *)
Fixpoint contains (s sub : string) : bool :=
  startswith s sub
  || match s with
     | "" => false
     | String _ s' => contains s' sub
     end.

(** [s.split(sep)] for a one-character separator. *)
Fixpoint split (sep : ascii) (s : string) : list string :=
  match s with
  | "" => [""]
  | String c s' =>
      if Ascii.eqb c sep then "" :: split sep s'
      else match split sep s' with
           | first :: rest => String c first :: rest
           | [] => [String c ""]
           end
  end.

(** [sep.join(parts)] *)
Fixpoint join (sep : string) (parts : list string) : string :=
  match parts with
  | [] => ""
  | [p] => p
  | p :: rest => p +:+ sep +:+ join sep rest
  end.

End Str.

(** ** Python values and exceptions *)

(** What [response.json()] returns.  A number keeps its literal: the
    script never looks inside one.  An object is the list of the items of
    the parsed [dict], in insertion order; the keys of a [dict] are
    distinct. *)
#[local] Set Warnings "-register-all".
Inductive json : Type :=
  | JNull
  | JBool (b : bool)
  | JNumber (literal : string)
  | JString (s : string)
  | JArray (items : list json)
  | JObject (members : list (string * json)).

Inductive exn : Type :=
  | RequestException   (* requests.get: connection error, time-out, ... *)
  | JSONDecodeError    (* response.json() on a body that is not JSON *)
  | AttributeError     (* a method the value does not have *)
  | TypeError          (* iteration over a value that is not iterable *)
  | OSError.           (* open / write *)

#[global] Instance exn_eq_dec : EqDecision exn.
Proof. solve_decision. Defined.

(** What a call gives: the exception it raises, or its value. *)
Abbreviation result A := (exn + A)%type.

Module Py.

(** [for x in v]: the values [x] takes, or [TypeError]. *)
Definition iter (v : json) : result (list json) :=
  match v with
  | JArray items => inr items
  | JObject members => inr (map (λ kv, JString kv.1) members)
  | JString s => inr (map (λ c, JString (String c "")) (String.list_ascii_of_string s))
  | JNull | JBool _ | JNumber _ => inl TypeError
  end.

Fixpoint lookup (key : string) (members : list (string * json)) : option json :=
  match members with
  | [] => None
  | (k, v) :: rest => if String.eqb k key then Some v else lookup key rest
  end.

(** [v.get(key, default)]: only a [dict] has the method. *)
Definition get (v : json) (key : string) (dflt : json) : result json :=
  match v with
  | JObject members => inr (default dflt (lookup key members))
  | _ => inl AttributeError
  end.

End Py.

Module PyStr.

(** [v.split(sep)] and [v.lower()]: only a [str] has the methods. *)
Definition split (v : json) (sep : ascii) : result (list string) :=
  match v with
  | JString s => inr (Str.split sep s)
  | _ => inl AttributeError
  end.

Definition lower (v : json) : result string :=
  match v with
  | JString s => inr (Str.lower s)
  | _ => inl AttributeError
  end.

End PyStr.

(** ** The network *)

(** A response as the script reads it: the status code, the body as text,
    and what [response.json()] makes of the body ([None]: it raises). *)
Record response : Type := Response {
  status_code : Z;
  text : string;
  parsed : option json;
}.

(** What [requests.get(url, timeout=30)] does: raise, or return. *)
Inductive fetch : Type :=
  | Unreachable
  | Answer (r : response).

Definition network : Type := string → fetch.

(** ** The body of a [try] block

    A [block A] runs on the current value of the local set [subdomains]
    and gives the set as it leaves it, together with either the exception
    it raised or its value. *)

Definition block (A : Type) : Type := gset string → gset string * result A.

#[global] Instance block_ret : MRet block := λ A x subdomains, (subdomains, inr x).

#[global] Instance block_bind : MBind block := λ A B f m subdomains,
  match m subdomains with
  | (subdomains', inr x) => f x subdomains'
  | (subdomains', inl e) => (subdomains', inl e)
  end.

Module Block.

Definition raise {A} (e : exn) : block A := λ subdomains, (subdomains, inl e).

(** A call that returns or raises and does not touch [subdomains]. *)
Definition call {A} (r : result A) : block A := λ subdomains, (subdomains, r).

(** [subdomains.add(name)] *)
Definition add (name : string) : block unit :=
  λ subdomains, (subdomains ∪ {[name]}, inr tt).

(** [if cond: body] *)
Definition when (cond : bool) (body : block unit) : block unit :=
  if cond then body else mret tt.

(** [for x in xs: body x] *)
Fixpoint for_each {A} (xs : list A) (body : A → block unit) : block unit :=
  match xs with
  | [] => mret tt
  | x :: rest => body x ;; for_each rest body
  end.

(** [subdomains = set(); try: body; except Exception: pass; return subdomains] *)
Definition try_except (body : block unit) : gset string := (body ∅).1.

(** [requests.get(url, timeout=30)] *)
Definition requests_get (net : network) (url : string) : block response :=
  match net url with
  | Unreachable => raise RequestException
  | Answer r => mret r
  end.

(** [response.json()] *)
Definition response_json (r : response) : block json :=
  match parsed r with
  | None => raise JSONDecodeError
  | Some v => mret v
  end.

End Block.

Import Block.

(** ** The four providers *)

Definition newline : ascii := ascii_of_N 10.

Definition crtsh_url (domain : string) : string :=
  "https://crt.sh/?q=%." +:+ domain +:+ "&output=json".

Definition query_crtsh (net : network) (domain : string) : gset string :=
  try_except (
    response ← requests_get net (crtsh_url domain);
    when (status_code response =? 200)%Z (
      data ← response_json response;
      entries ← call (Py.iter data);
      for_each entries (λ entry,
        name_value ← call (Py.get entry "name_value" (JString ""));
        names ← call (PyStr.split name_value newline);
        for_each names (λ name,
          let name := Str.lower (Str.strip name) in
          when (Str.endswith name domain && negb (Str.contains name "*"))
            (add name))))).

Definition hackertarget_url (domain : string) : string :=
  "https://api.hackertarget.com/hostsearch/?q=" +:+ domain.

Definition query_hackertarget (net : network) (domain : string) : gset string :=
  try_except (
    response ← requests_get net (hackertarget_url domain);
    when ((status_code response =? 200)%Z
          && negb (Str.contains (Str.lower (text response)) "error")) (
      for_each (Str.split newline (text response)) (λ line,
        when (Str.contains line ",") (
          let subdomain := Str.lower (Str.strip (hd "" (Str.split "," line))) in
          when (Str.endswith subdomain domain) (add subdomain))))).

(** The regular expression [[\w\.-]+\.<domain>] under [re.IGNORECASE],
    where [<domain>] is [re.escape(domain)]: the domain as a literal. *)
Module Re.

(** The class [[\w\.-]]. *)
Definition label_char (c : ascii) : bool :=
  Char.isword c || Char.exactly 46 c || Char.exactly 45 c.

(** A literal under [IGNORECASE]: the characters agree once lowered. *)
Fixpoint literal (lit s : string) {struct lit} : bool :=
  match lit, s with
  | "", _ => true
  | String _ _, "" => false
  | String a lit', String b s' =>
      Ascii.eqb (Char.lower a) (Char.lower b) && literal lit' s'
  end.

(** [\.<domain>] at the start of [s]. *)
Definition tail (domain s : string) : bool :=
  match s with
  | String c s' => Char.exactly 46 c && literal domain s'
  | "" => false
  end.

(** The match of the whole pattern at the start of [s]: the number of
    characters [[\w\.-]+] takes.  The repetition is greedy: it gives a
    character back only when no longer run is followed by the tail. *)
Fixpoint match_label (domain s : string) : option nat :=
  match s with
  | "" => None
  | String c s' =>
      if label_char c then
        match match_label domain s' with
        | Some k => Some (S k)
        | None => if tail domain s' then Some 1 else None
        end
      else None
  end.

(** [re.findall]: the matches from left to right, without overlap;
    [skip] counts the characters of the last match still to pass. *)
Fixpoint findall_from (domain : string) (skip : nat) (s : string) : list string :=
  match s with
  | "" => []
  | String _ s' =>
      match skip with
      | S n => findall_from domain n s'
      | O =>
          match match_label domain s with
          | Some k =>
              Str.take (k + 1 + String.length domain) s
                :: findall_from domain (k + String.length domain) s'
          | None => findall_from domain 0 s'
          end
      end
  end.

Definition findall (domain s : string) : list string := findall_from domain 0 s.

End Re.

Definition rapiddns_url (domain : string) : string :=
  "https://rapiddns.io/subdomain/" +:+ domain +:+ "?full=1".

Definition query_rapiddns (net : network) (domain : string) : gset string :=
  try_except (
    response ← requests_get net (rapiddns_url domain);
    when (status_code response =? 200)%Z (
      let matches := Re.findall domain (text response) in
      for_each matches (λ m, add (Str.lower m)))).

Definition alienvault_url (domain : string) : string :=
  "https://otx.alienvault.com/api/v1/indicators/domain/" +:+ domain
  +:+ "/passive_dns".

Definition query_alienvault (net : network) (domain : string) : gset string :=
  try_except (
    response ← requests_get net (alienvault_url domain);
    when (status_code response =? 200)%Z (
      data ← response_json response;
      records ← call (Py.get data "passive_dns" (JArray []));
      entries ← call (Py.iter records);
      for_each entries (λ entry,
        field ← call (Py.get entry "hostname" (JString ""));
        hostname ← call (PyStr.lower field);
        when (Str.endswith hostname domain) (add hostname)))).

(** ** The coordinator *)

Inductive provider : Type := CrtSh | HackerTarget | RapidDNS | AlienVault.

#[global] Instance provider_eq_dec : EqDecision provider.
Proof. solve_decision. Defined.

(** The four tasks [enumerate_subdomains] submits, in submission order. *)
Definition providers : list provider := [CrtSh; HackerTarget; RapidDNS; AlienVault].

Definition query (p : provider) : network → string → gset string :=
  match p with
  | CrtSh => query_crtsh
  | HackerTarget => query_hackertarget
  | RapidDNS => query_rapiddns
  | AlienVault => query_alienvault
  end.

Definition url (p : provider) : string → string :=
  match p with
  | CrtSh => crtsh_url
  | HackerTarget => hackertarget_url
  | RapidDNS => rapiddns_url
  | AlienVault => alienvault_url
  end.

(** [executor.submit(f, domain)]: the future holds what the call returns,
    or the exception it raises.  The four tasks always return. *)
Definition submit (f : network → string → gset string)
    (net : network) (domain : string) : result (gset string) :=
  inr (f net domain).

(** One turn of the loop over [as_completed(futures)]:
    [try: all_subdomains.update(future.result()) except Exception: pass]. *)
Definition collect (all_subdomains : gset string)
    (future : result (gset string)) : gset string :=
  match future with
  | inr result => all_subdomains ∪ result
  | inl _ => all_subdomains
  end.

Definition merge (futures : list (result (gset string))) : gset string :=
  foldl collect ∅ futures.

(** [completion] is the order in which [as_completed] yields the four
    futures: some permutation of [providers], chosen by the scheduler. *)
Definition enumerate_subdomains (net : network) (completion : list provider)
    (domain : string) : gset string :=
  merge (map (λ p, submit (query p) net domain) completion).

(** ** The entry point *)

(** [sorted(subdomains)] *)
Definition sorted (subdomains : gset string) : list string :=
  merge_sort String.le (elements subdomains).

(** The files of the machine: contents by path, and the handles that are
    open (a handle is named by its path). *)
Record filesystem : Type := FileSystem {
  files : gmap string string;
  handles : list string;
}.

(** Where the machine refuses to open or to write. *)
Record faults : Type := Faults {
  open_fails : string → bool;
  write_fails : string → bool;
}.

Module File.

(** [open(path, 'w')]: the file is created or truncated. *)
Definition open (flt : faults) (path : string) (fs : filesystem)
    : filesystem * result string :=
  if open_fails flt path then (fs, inl OSError)
  else (FileSystem (<[path := ""]> (files fs)) (path :: handles fs), inr path).

(** [f.write(data)] *)
Definition write (flt : faults) (f data : string) (fs : filesystem)
    : filesystem * result unit :=
  if write_fails flt f then (fs, inl OSError)
  else (FileSystem (alter (λ old, old +:+ data) f (files fs)) (handles fs), inr tt).

Fixpoint release (f : string) (hs : list string) : list string :=
  match hs with
  | [] => []
  | h :: rest => if String.eqb h f then rest else h :: release f rest
  end.

(** [f.close()] *)
Definition close (f : string) (fs : filesystem) : filesystem :=
  FileSystem (files fs) (release f (handles fs)).

(** [with open(path, 'w') as f: body f]: when [open] returns, the handle
    is closed as the block is left, by its end or by an exception. *)
Definition with_open {A} (flt : faults) (path : string)
    (body : string → filesystem → filesystem * result A) (fs : filesystem)
    : filesystem * result A :=
  match open flt path fs with
  | (fs1, inl e) => (fs1, inl e)
  | (fs1, inr f) => let '(fs2, r) := body f fs1 in (close f fs2, r)
  end.

End File.

Record arguments : Type := Args {
  arg_domain : string;            (* -d, default 77code.fun *)
  arg_output : option string;     (* -o *)
}.

(** [if args.output:] holds for a path that is neither [None] nor empty. *)
Definition output_given (args : arguments) : option string :=
  match arg_output args with
  | Some "" | None => None
  | Some path => Some path
  end.

Definition main (args : arguments) (net : network) (completion : list provider)
    (flt : faults) (fs : filesystem) : filesystem * result (list string) :=
  let domain := Str.strip (Str.lower (arg_domain args)) in
  let subdomains := enumerate_subdomains net completion domain in
  let sorted_subdomains := sorted subdomains in
  match output_given args with
  | Some path =>
      match File.with_open flt path
              (λ f, File.write flt f (Str.join (String newline "") sorted_subdomains))
              fs with
      | (fs', inl e) => (fs', inl e)
      | (fs', inr _) => (fs', inr sorted_subdomains)
      end
  | None => (fs, inr sorted_subdomains)
  end.

(** ** Vocabulary of the specification *)

(** A provider has failed when its request raised (network error,
    time-out), was answered by a status other than 200, or, for the two
    providers that read JSON, was answered by a body that is not JSON. *)
Definition reads_json (p : provider) : bool :=
  match p with
  | CrtSh | AlienVault => true
  | HackerTarget | RapidDNS => false
  end.

Definition failed (p : provider) (f : fetch) : bool :=
  match f with
  | Unreachable => true
  | Answer r =>
      negb (status_code r =? 200)%Z
      || (reads_json p && match parsed r with Some _ => false | None => true end)
  end.

(** The sets of the futures that returned. *)
Definition successes (futures : list (result (gset string))) : list (gset string) :=
  omap (λ future, match future with inr s => Some s | inl _ => None end) futures.

(** [adds b P]: whatever [b] puts into [subdomains] satisfies [P]. *)
Definition adds {A} (b : block A) (P : string → Prop) : Prop :=
  ∀ subdomains h, h ∈ (b subdomains).1 → h ∈ subdomains ∨ P h.

(** [yields m x]: [m] can return [x]. *)
Definition yields {A} (m : block A) (x : A) : Prop :=
  ∃ subdomains subdomains', m subdomains = (subdomains', inr x).

(** [lowered s]: [s] has no character with a lowercase mapping. *)
Definition lowered (s : string) : Prop := Str.lower s = s.

(** [covers b Q]: [b] returns, keeps what [subdomains] held and puts
    every name of [Q] into it. *)
Definition covers (b : block unit) (Q : string → Prop) : Prop :=
  ∀ subdomains, ∃ subdomains',
    b subdomains = (subdomains', inr tt)
    ∧ subdomains ⊆ subdomains' ∧ ∀ h, Q h → h ∈ subdomains'.

(** The raw candidates of each provider: the strings its extraction reads
    from a 200 answer, before any normalisation or filter. *)

(** crt.sh: the lines of the [name_value] field of the entries. *)
Definition crtsh_candidate (net : network) (domain name : string) : Prop :=
  ∃ r data entries entry field,
    net (crtsh_url domain) = Answer r ∧ status_code r = 200%Z
    ∧ parsed r = Some data ∧ Py.iter data = inr entries ∧ entry ∈ entries
    ∧ Py.get entry "name_value" (JString "") = inr (JString field)
    ∧ name ∈ Str.split newline field.

(** HackerTarget: the first comma-separated field of the lines that have
    a comma, unless the body mentions an error. *)
Definition hackertarget_candidate (net : network) (domain field : string) : Prop :=
  ∃ r line,
    net (hackertarget_url domain) = Answer r ∧ status_code r = 200%Z
    ∧ Str.contains (Str.lower (text r)) "error" = false
    ∧ line ∈ Str.split newline (text r) ∧ Str.contains line "," = true
    ∧ field = hd "" (Str.split "," line).

(** RapidDNS: the matches of the pattern in the page. *)
Definition rapiddns_candidate (net : network) (domain m : string) : Prop :=
  ∃ r,
    net (rapiddns_url domain) = Answer r ∧ status_code r = 200%Z
    ∧ m ∈ Re.findall domain (text r).

(** AlienVault: the [hostname] field of the [passive_dns] records. *)
Definition alienvault_candidate (net : network) (domain field : string) : Prop :=
  ∃ r data records entries entry,
    net (alienvault_url domain) = Answer r ∧ status_code r = 200%Z
    ∧ parsed r = Some data
    ∧ Py.get data "passive_dns" (JArray []) = inr records
    ∧ Py.iter records = inr entries ∧ entry ∈ entries
    ∧ Py.get entry "hostname" (JString "") = inr (JString field).

(** A crt.sh body of the expected shape: a list of objects whose
    [name_value], when present, is a string. *)
Definition crtsh_well_formed (data : json) : Prop :=
  ∃ entries, Py.iter data = inr entries
    ∧ ∀ entry, entry ∈ entries →
        ∃ field, Py.get entry "name_value" (JString "") = inr (JString field).

(** An AlienVault body of the expected shape: an object whose
    [passive_dns], when present, lists objects whose [hostname], when
    present, is a string. *)
Definition alienvault_well_formed (data : json) : Prop :=
  ∃ records entries,
    Py.get data "passive_dns" (JArray []) = inr records
    ∧ Py.iter records = inr entries
    ∧ ∀ entry, entry ∈ entries →
        ∃ field, Py.get entry "hostname" (JString "") = inr (JString field).

(** A label run: characters of the class [[\w\.-]] only. *)
Fixpoint label_run (l : string) : bool :=
  match l with
  | "" => true
  | String c l' => Re.label_char c && label_run l'
  end.

(** The form [<one or more label characters>.<d>]. *)
Definition dotted_under (d h : string) : Prop :=
  ∃ l, l ≠ "" ∧ label_run l = true ∧ h = l +:+ "." +:+ d.

(** ** Scenarios *)

(** A network given by a table of URLs; any other request raises. *)
Fixpoint answers (table : list (string * fetch)) : network :=
  λ url,
    match table with
    | [] => Unreachable
    | (u, f) :: rest => if String.eqb u url then f else answers rest url
    end.

Definition ok_text (body : string) : fetch := Answer (Response 200 body None).

Definition ok_json (data : json) : fetch := Answer (Response 200 "" (Some data)).

(** Nothing answers. *)
Definition dead_net : network := answers [].

(** crt.sh times out, RapidDNS answers 503, AlienVault answers a page that
    is not JSON; HackerTarget answers two hosts. *)
Definition partial_net : network := answers [
  (hackertarget_url "example.com",
   ok_text ("api.example.com,93.184.216.34" +:+ String newline "shop.example.com,93.184.216.35"));
  (rapiddns_url "example.com", Answer (Response 503 "busy" None));
  (alienvault_url "example.com", Answer (Response 200 "<html>" None))
].

(** Two providers report one host in two spellings. *)
Definition case_net : network := answers [
  (crtsh_url "example.com",
   ok_json (JArray [JObject [("name_value", JString "www.example.com")]]));
  (hackertarget_url "example.com", ok_text "WWW.example.com,93.184.216.34")
].

(** The scheduler may hand the futures back in any order; this is one. *)
Definition some_completion : list provider :=
  [HackerTarget; AlienVault; CrtSh; RapidDNS].

(** Both suffix-checking text sources report a host of another domain
    whose name happens to end in the target's. *)
Definition overmatch_net : network := answers [
  (crtsh_url "example.com",
   ok_json (JArray [JObject [("name_value", JString "notexample.com")]]));
  (hackertarget_url "example.com", ok_text "notexample.com,93.184.216.34")
].

(** A page as RapidDNS serves it. *)
Definition page_net : network := answers [
  (rapiddns_url "example.com",
   ok_text "<td>Mail.Example.com</td><td>notexample.com</td><td>example.com</td>")
].

(** A machine with one open log and a path it refuses to open. *)
Definition busy_fs : filesystem :=
  FileSystem {["old.txt" := "stale"]} ["debug.log"].

Definition picky : faults :=
  Faults (λ path, String.eqb path "/forbidden/out.txt") (λ _, false).

(** HackerTarget lists a wildcard record. *)
Definition wildcard_net : network := answers [
  (hackertarget_url "example.com", ok_text "*.example.com,93.184.216.34")
].

(** AlienVault reports a host with a blank before it. *)
Definition untrimmed_net : network := answers [
  (alienvault_url "example.com",
   ok_json (JObject [("passive_dns",
                      JArray [JObject [("hostname", JString " A.example.com")]])]))
].


(** [occurs_in x s]: [x] is a piece of [s]. *)
Definition occurs_in (x s : string) : Prop := ∃ p q, s = p +:+ x +:+ q.

(** [s] is empty or begins with a character outside the class [[\w\.-]];
    [s] is empty or ends with one. *)
Definition starts_outside (s : string) : Prop :=
  match s with
  | "" => True
  | String c _ => Re.label_char c = false
  end.

Definition ends_outside (s : string) : Prop :=
  s = "" ∨ ∃ s' c, s = s' +:+ String c "" ∧ Re.label_char c = false.

(** ** The pattern scan beyond Latin-1

    A page is any text, and [re.IGNORECASE] on a [str] pattern matches an
    ASCII letter with a few characters outside Latin-1 as well: the long s
    (U+017F) with [s], the dotless i (U+0131) and the capital dotted I
    (U+0130) with [i], the Kelvin sign (U+212A) with [k].  [str.lower]
    leaves the first two as they are.  This module writes lines 70 to 73
    out once more over Latin-1 and these characters, together with the
    combining dot (U+0307) that [str.lower] makes of U+0130. *)
Module Uni.

Inductive uchar : Type :=
  | Latin (a : ascii)      (* U+0000 .. U+00FF *)
  | CapitalDottedI         (* U+0130 *)
  | DotlessI               (* U+0131 *)
  | LongS                  (* U+017F *)
  | CombiningDot           (* U+0307 *)
  | KelvinSign.            (* U+212A *)

#[global] Instance uchar_eq_dec : EqDecision uchar.
Proof. solve_decision. Defined.

(** A string of the 8-bit model, as text here. *)
Fixpoint of_string (s : string) : list uchar :=
  match s with
  | "" => []
  | String a s' => Latin a :: of_string s'
  end.

(** [c.lower()] *)
Definition lower_char (c : uchar) : list uchar :=
  match c with
  | Latin a => [Latin (Char.lower a)]
  | CapitalDottedI => [Latin "i"; CombiningDot]
  | KelvinSign => [Latin "k"]
  | DotlessI | LongS | CombiningDot => [c]
  end.

(** [s.lower()] *)
Definition lower (s : list uchar) : list uchar := s ≫= lower_char.

(** The lowercase the regular expression engine compares by: always one
    character. *)
Definition fold_char (c : uchar) : uchar :=
  match c with
  | Latin a => Latin (Char.lower a)
  | CapitalDottedI => Latin "i"
  | KelvinSign => Latin "k"
  | DotlessI | LongS | CombiningDot => c
  end.

(** The lowercase characters the engine takes for equal to [lo] besides
    [lo] itself. *)
Definition equals_of (lo : uchar) : list uchar :=
  match lo with
  | Latin a =>
      if Ascii.eqb a "i" then [DotlessI]
      else if Ascii.eqb a "s" then [LongS]
      else []
  | DotlessI => [Latin "i"]
  | LongS => [Latin "s"]
  | CapitalDottedI | CombiningDot | KelvinSign => []
  end.

(** One character of a literal under [IGNORECASE]. *)
Definition literal_char (l ch : uchar) : bool :=
  bool_decide (fold_char ch ∈ fold_char l :: equals_of (fold_char l)).

Definition dot : uchar := Latin ".".

(** The class [[\w\.-]]: U+0130, U+0131, U+017F and U+212A are letters,
    U+0307 is a mark. *)
Definition label_char (c : uchar) : bool :=
  match c with
  | Latin a => Re.label_char a
  | CapitalDottedI | DotlessI | LongS | KelvinSign => true
  | CombiningDot => false
  end.

Fixpoint literal (lit s : list uchar) {struct lit} : bool :=
  match lit, s with
  | [], _ => true
  | _ :: _, [] => false
  | l :: lit', ch :: s' => literal_char l ch && literal lit' s'
  end.

(** [\.<domain>] at the start of [s]. *)
Definition tail (domain s : list uchar) : bool :=
  match s with
  | c :: s' => bool_decide (c = dot) && literal domain s'
  | [] => false
  end.

Fixpoint match_label (domain s : list uchar) : option nat :=
  match s with
  | [] => None
  | c :: s' =>
      if label_char c then
        match match_label domain s' with
        | Some k => Some (S k)
        | None => if tail domain s' then Some 1 else None
        end
      else None
  end.

Fixpoint findall_from (domain : list uchar) (skip : nat) (s : list uchar)
    : list (list uchar) :=
  match s with
  | [] => []
  | _ :: s' =>
      match skip with
      | S n => findall_from domain n s'
      | O =>
          match match_label domain s with
          | Some k =>
              take (k + 1 + length domain) s
                :: findall_from domain (k + length domain) s'
          | None => findall_from domain 0 s'
          end
      end
  end.

Definition findall (domain s : list uchar) : list (list uchar) :=
  findall_from domain 0 s.

(** Lines 70 to 73: the matches of the pattern in the page, each lowered;
    [subdomains] is the set of them. *)
Definition scan (domain page : list uchar) : list (list uchar) :=
  lower <$> findall domain page.

(** [d] is text the literal [lit] matches under [IGNORECASE]. *)
Definition matches (lit d : list uchar) : Prop :=
  Forall2 (λ l ch, literal_char l ch = true) lit d.

End Uni.

(** A page with a long s where the domain has an s. *)
Definition long_s_page : list Uni.uchar :=
  Uni.of_string "<td>a.te" ++ [Uni.LongS] ++ Uni.of_string "t.com</td>".

Definition long_s_host : list Uni.uchar :=
  Uni.of_string "a.te" ++ [Uni.LongS] ++ Uni.of_string "t.com".

(** * Properties *)

(** ** Characters and strings *)

Ltac by_cases_on_char c :=
  destruct c as [[] [] [] [] [] [] [] []]; vm_compute; try reflexivity; try discriminate.

Lemma char_lower_idemp c : Char.lower (Char.lower c) = Char.lower c.
Proof. by_cases_on_char c. Qed.

Lemma label_char_lower c : Re.label_char (Char.lower c) = Re.label_char c.
Proof. by_cases_on_char c. Qed.

#[local] Arguments String.append !_ _ / : simpl nomatch.

Section strings.
Implicit Types (s p d : string) (c : ascii).

Lemma string_app_nil s : s +:+ "" = s.
Proof. induction s; simpl; congruence. Qed.

Lemma string_app_assoc s1 s2 s3 : (s1 +:+ s2) +:+ s3 = s1 +:+ (s2 +:+ s3).
Proof. induction s1; simpl; congruence. Qed.

Lemma string_app_length s1 s2 :
  String.length (s1 +:+ s2) = String.length s1 + String.length s2.
Proof. induction s1; simpl; congruence. Qed.

Lemma map_app f s1 s2 : Str.map f (s1 +:+ s2) = Str.map f s1 +:+ Str.map f s2.
Proof. induction s1; simpl; congruence. Qed.

Lemma map_length f s : String.length (Str.map f s) = String.length s.
Proof. induction s; simpl; congruence. Qed.

Lemma lower_app s1 s2 : Str.lower (s1 +:+ s2) = Str.lower s1 +:+ Str.lower s2.
Proof. apply map_app. Qed.

Lemma lower_idemp s : Str.lower (Str.lower s) = Str.lower s.
Proof.
  unfold Str.lower. induction s as [|c s IH]; simpl; [done|].
  by rewrite char_lower_idemp, IH.
Qed.

Lemma take_drop n s : Str.take n s +:+ Str.drop n s = s.
Proof.
  revert s; induction n as [|n IH]; intros [|c s]; simpl; try done.
  by rewrite IH.
Qed.

Lemma drop_app_length s1 s2 : Str.drop (String.length s1) (s1 +:+ s2) = s2.
Proof. induction s1; simpl; [by destruct s2|done]. Qed.

Lemma take_app_length s1 s2 : Str.take (String.length s1) (s1 +:+ s2) = s1.
Proof. induction s1; simpl; [by destruct s2|congruence]. Qed.

Lemma take_length (n : nat) s :
  (n ≤ String.length s)%nat → String.length (Str.take n s) = n.
Proof.
  revert s; induction n as [|n IH]; intros [|c s]; simpl; try lia; try done.
  intros ?. rewrite IH; lia.
Qed.

(** The suffix test is the plain one: some prefix, then [d]. *)
Lemma endswith_spec s d : Str.endswith s d = true ↔ ∃ p, s = p +:+ d.
Proof.
  unfold Str.endswith. rewrite andb_true_iff, Nat.leb_le, String.eqb_eq. split.
  - intros [_ Hd]. remember (String.length s - String.length d) as n.
    exists (Str.take n s). rewrite <- Hd. by rewrite take_drop.
  - intros [p ->]. rewrite string_app_length. split; [lia|].
    replace (String.length p + String.length d - String.length d)
      with (String.length p) by lia.
    apply drop_app_length.
Qed.

Lemma startswith_spec s p : Str.startswith s p = true ↔ ∃ q, s = p +:+ q.
Proof.
  revert s; induction p as [|a p IH]; intros s; simpl.
  - split; [by exists s|done].
  - destruct s as [|b s]; [split; [done|by intros [? ?]]|].
    rewrite andb_true_iff, Ascii.eqb_eq, IH. split.
    + intros [-> [q ->]]. by exists q.
    + intros [q [= -> ->]]. eauto.
Qed.

(** [sub in s]: [sub] occurs somewhere in [s]. *)
Lemma contains_spec s sub :
  Str.contains s sub = true ↔ ∃ p q, s = p +:+ sub +:+ q.
Proof.
  induction s as [|c s IH].
  - simpl. rewrite orb_false_r, startswith_spec. split.
    + intros [q ->]. by exists "", q.
    + intros [[|? p] [q Hq]]; [by exists q|done].
  - cbn [Str.contains]. rewrite orb_true_iff, startswith_spec, IH. split.
    + intros [[q ->]|(p & q & ->)]; [by exists "", q|by exists (String c p), q].
    + intros [[|a p] [q Hq]]; [left; by exists q|].
      simpl in Hq. injection Hq as -> ->. right; eauto.
Qed.

Lemma contains_lower s sub :
  Str.contains s sub = true → Str.contains (Str.lower s) (Str.lower sub) = true.
Proof.
  rewrite !contains_spec. intros (p & q & ->).
  exists (Str.lower p), (Str.lower q). by rewrite !lower_app.
Qed.

Lemma lstrip_lowered s : Str.lower s = s → Str.lower (Str.lstrip s) = Str.lstrip s.
Proof.
  unfold Str.lower. induction s as [|c s IH]; simpl; [done|]. intros [= Hc Hs].
  destruct (Char.isspace c); [by apply IH|]. simpl. by rewrite Hc, Hs.
Qed.

Lemma rstrip_lowered s : Str.lower s = s → Str.lower (Str.rstrip s) = Str.rstrip s.
Proof.
  unfold Str.lower. induction s as [|c s IH]; simpl; [done|]. intros [= Hc Hs].
  specialize (IH Hs). destruct (Str.rstrip s) as [|a r].
  - destruct (Char.isspace c); simpl; [done|by rewrite Hc].
  - simpl in *. by rewrite Hc, IH.
Qed.

Lemma strip_lower_lowered s :
  Str.lower (Str.strip (Str.lower s)) = Str.strip (Str.lower s).
Proof. apply lstrip_lowered, rstrip_lowered, lower_idemp. Qed.

Lemma split_nonempty sep s : Str.split sep s ≠ [].
Proof.
  destruct s as [|c s]; simpl; [done|].
  destruct (Ascii.eqb c sep); [done|]. by destruct (Str.split sep s).
Qed.

End strings.


(** ** Blocks *)

Section blocks.
Context {A B : Type}.
Implicit Types (P Q : string → Prop).

Lemma adds_weaken (b : block A) P Q : adds b P → (∀ h, P h → Q h) → adds b Q.
Proof. intros Hb HPQ s h Hh. destruct (Hb s h Hh); auto. Qed.

Lemma adds_ret (x : A) P : adds (mret x) P.
Proof. intros s h Hh. by left. Qed.

Lemma adds_raise e P : adds (raise (A:=A) e) P.
Proof. intros s h Hh. by left. Qed.

Lemma adds_call (r : result A) P : adds (call r) P.
Proof. intros s h Hh. by left. Qed.

Lemma adds_bind (m : block A) (f : A → block B) P :
  adds m P → (∀ x, yields m x → adds (f x) P) → adds (m ≫= f) P.
Proof.
  intros Hm Hf s h. unfold mbind, block_bind.
  specialize (Hm s h). destruct (m s) as [s' [e|x]] eqn:Hms; simpl in *; [done|].
  intros Hh. destruct (Hf x (ex_intro _ s (ex_intro _ s' Hms)) s' h Hh); auto.
Qed.

Lemma yields_call (r : result A) x : yields (call r) x → r = inr x.
Proof. by intros (s & s' & [= _ ->]). Qed.

End blocks.

Lemma adds_add name (P : string → Prop) : P name → adds (add name) P.
Proof.
  intros HP s h. unfold add; simpl. rewrite elem_of_union, elem_of_singleton.
  intros [?| ->]; auto.
Qed.

Lemma adds_when (cond : bool) body (P : string → Prop) :
  (cond = true → adds body P) → adds (when cond body) P.
Proof. destruct cond; simpl; [auto|]. intros _. apply adds_ret. Qed.

Lemma adds_for_each {A} (xs : list A) body (P : string → Prop) :
  (∀ x, x ∈ xs → adds (body x) P) → adds (for_each xs body) P.
Proof.
  induction xs as [|x xs IH]; intros Hbody; simpl; [apply adds_ret|].
  apply adds_bind.
  - apply Hbody. by left.
  - intros _ _. apply IH. intros y Hy. apply Hbody. by right.
Qed.

Lemma adds_try_except body (P : string → Prop) :
  adds body P → ∀ h, h ∈ try_except body → P h.
Proof.
  intros Hb h Hh. destruct (Hb ∅ h Hh) as [Hempty|]; [|done].
  by apply not_elem_of_empty in Hempty.
Qed.

Lemma yields_requests_get net url r :
  yields (requests_get net url) r → net url = Answer r.
Proof.
  unfold requests_get. intros (s & s' & Hy).
  destruct (net url); [done|]. by injection Hy as _ ->.
Qed.

Lemma yields_response_json r v : yields (response_json r) v → parsed r = Some v.
Proof.
  unfold response_json. intros (s & s' & Hy).
  destruct (parsed r); [|done]. by injection Hy as _ ->.
Qed.

Lemma adds_requests_get net url (P : string → Prop) : adds (requests_get net url) P.
Proof. unfold requests_get. destruct (net url); [apply adds_raise|apply adds_ret]. Qed.

Lemma adds_response_json r (P : string → Prop) : adds (response_json r) P.
Proof. unfold response_json. destruct (parsed r); [apply adds_ret|apply adds_raise]. Qed.

(** One step through a block that adds only names of [P]. *)
Ltac adds_step :=
  lazymatch goal with
  | |- adds (requests_get _ _ ≫= _) _ =>
      apply adds_bind; [apply adds_requests_get|]; intros ? ?%yields_requests_get
  | |- adds (response_json _ ≫= _) _ =>
      apply adds_bind; [apply adds_response_json|]; intros ? ?%yields_response_json
  | |- adds (call _ ≫= _) _ =>
      apply adds_bind; [apply adds_call|]; intros ? ?%yields_call
  | |- adds (when _ _) _ => apply adds_when; intros ?
  | |- adds (for_each _ _) _ => apply adds_for_each; intros ? ?
  | |- adds (add _) _ => apply adds_add
  end.

Section covers.
Implicit Types (Q : string → Prop) (b : block unit).

Lemma covers_weaken b Q Q' : covers b Q → (∀ h, Q' h → Q h) → covers b Q'.
Proof.
  intros Hb HQ s. destruct (Hb s) as (s' & ? & ? & ?). exists s'. auto.
Qed.

Lemma covers_ret : covers (mret tt) (λ _, False).
Proof. intros s. exists s. by repeat split. Qed.

Lemma covers_add name : covers (add name) (λ h, h = name).
Proof.
  intros s. exists (s ∪ {[name]}). repeat split; [set_solver|].
  intros h ->. set_solver.
Qed.

Lemma covers_when (cond : bool) b Q :
  (cond = true → covers b Q) → covers (when cond b) (λ h, cond = true ∧ Q h).
Proof.
  destruct cond; simpl; intros Hb.
  - eapply covers_weaken; [by apply Hb|]. by intros h [_ ?].
  - eapply covers_weaken; [apply covers_ret|]. by intros h [? _].
Qed.

Lemma covers_for_each {A} (xs : list A) (body : A → block unit)
    (Q : A → string → Prop) :
  (∀ x, x ∈ xs → covers (body x) (Q x)) →
  covers (for_each xs body) (λ h, ∃ x, x ∈ xs ∧ Q x h).
Proof.
  induction xs as [|x xs IH]; intros Hbody s; simpl.
  - exists s. repeat split; [done|]. intros h (x & Hx & _). by apply elem_of_nil in Hx.
  - unfold mbind, block_bind.
    destruct (Hbody x (list_elem_of_here _ _) s) as (s1 & -> & Hs1 & Hx).
    destruct (IH (λ y Hy, Hbody y (list_elem_of_further _ _ _ Hy)) s1)
      as (s2 & -> & Hs2 & Hxs).
    exists s2. repeat split; [set_solver|].
    intros h (y & [->|Hy]%elem_of_cons & HQ); [apply Hs2, Hx, HQ|eauto].
Qed.

Lemma covers_call {A} (r : result A) x (f : A → block unit) Q :
  r = inr x → covers (f x) Q → covers (call r ≫= f) Q.
Proof. intros -> Hf s. apply Hf. Qed.

Lemma covers_requests_get net url r (f : response → block unit) Q :
  net url = Answer r → covers (f r) Q → covers (requests_get net url ≫= f) Q.
Proof.
  intros Hnet Hf s. unfold mbind, block_bind, requests_get. rewrite Hnet. apply Hf.
Qed.

Lemma covers_response_json r v (f : json → block unit) Q :
  parsed r = Some v → covers (f v) Q → covers (response_json r ≫= f) Q.
Proof.
  intros Hr Hf s. unfold mbind, block_bind, response_json. rewrite Hr. apply Hf.
Qed.

Lemma covers_try_except b Q : covers b Q → ∀ h, Q h → h ∈ try_except b.
Proof.
  intros Hb h HQ. unfold try_except. destruct (Hb ∅) as (s' & -> & _ & Hs'). auto.
Qed.

End covers.

(** From a membership in what a provider returns to the block that is
    run: the property wanted of [h] becomes the one the block adds. *)
Ltac into_block h :=
  let Hh := fresh in
  intros Hh; pattern h; revert h Hh; apply adds_try_except.

(** ** What each provider returns *)

Lemma pystr_split_inr v sep names :
  PyStr.split v sep = inr names → ∃ field, v = JString field ∧ names = Str.split sep field.
Proof. destruct v; simpl; try done. intros [= <-]. eauto. Qed.

Lemma pystr_lower_inr v h :
  PyStr.lower v = inr h → ∃ field, v = JString field ∧ h = Str.lower field.
Proof. destruct v; simpl; try done. intros [= <-]. eauto. Qed.

Lemma query_crtsh_sound net domain h :
  h ∈ query_crtsh net domain →
  ∃ name, crtsh_candidate net domain name ∧ h = Str.lower (Str.strip name)
          ∧ Str.endswith h domain = true ∧ Str.contains h "*" = false.
Proof.
  into_block h. unfold query_crtsh. repeat adds_step; cbv beta.
  match goal with H : PyStr.split _ _ = _ |- _ =>
    apply pystr_split_inr in H as (field & -> & ->) end.
  match goal with H : _ && _ = true |- _ =>
    apply andb_true_iff in H as [? ?%negb_true_iff] end.
  match goal with H : (_ =? _)%Z = true |- _ => apply Z.eqb_eq in H end.
  eexists; split; [|done]. unfold crtsh_candidate. eauto 12.
Qed.

Lemma query_hackertarget_sound net domain h :
  h ∈ query_hackertarget net domain →
  ∃ field, hackertarget_candidate net domain field
           ∧ h = Str.lower (Str.strip field) ∧ Str.endswith h domain = true.
Proof.
  into_block h. unfold query_hackertarget. repeat adds_step; cbv beta.
  match goal with H : _ && _ = true |- _ =>
    apply andb_true_iff in H as [?%Z.eqb_eq ?%negb_true_iff] end.
  eexists; split; [|done]. unfold hackertarget_candidate. eauto 12.
Qed.

Lemma query_rapiddns_sound net domain h :
  h ∈ query_rapiddns net domain →
  ∃ m, rapiddns_candidate net domain m ∧ h = Str.lower m.
Proof.
  into_block h. unfold query_rapiddns. repeat adds_step; cbv beta.
  match goal with H : (_ =? _)%Z = true |- _ => apply Z.eqb_eq in H end.
  eexists; split; [|done]. unfold rapiddns_candidate. eauto.
Qed.

Lemma query_alienvault_sound net domain h :
  h ∈ query_alienvault net domain →
  ∃ field, alienvault_candidate net domain field
           ∧ h = Str.lower field ∧ Str.endswith h domain = true.
Proof.
  into_block h. unfold query_alienvault. repeat adds_step; cbv beta.
  match goal with H : PyStr.lower _ = _ |- _ =>
    apply pystr_lower_inr in H as (field & -> & ->) end.
  match goal with H : (_ =? _)%Z = true |- _ => apply Z.eqb_eq in H end.
  eexists; split; [|done]. unfold alienvault_candidate. eauto 12.
Qed.

Lemma query_hackertarget_complete net domain field :
  hackertarget_candidate net domain field →
  Str.endswith (Str.lower (Str.strip field)) domain = true →
  Str.lower (Str.strip field) ∈ query_hackertarget net domain.
Proof.
  intros (r & line & Hnet & Hst & Herr & Hline & Hcomma & ->) Hend.
  unfold query_hackertarget. eapply covers_try_except.
  - eapply covers_requests_get; [exact Hnet|].
    apply covers_when; intros _.
    apply covers_for_each; intros l _.
    apply covers_when; intros _. apply covers_when; intros _. apply covers_add.
  - cbv beta. rewrite Hst, Herr. split; [done|]. exists line. auto.
Qed.

Lemma query_rapiddns_complete net domain m :
  rapiddns_candidate net domain m → Str.lower m ∈ query_rapiddns net domain.
Proof.
  intros (r & Hnet & Hst & Hm).
  unfold query_rapiddns. eapply covers_try_except.
  - eapply covers_requests_get; [exact Hnet|].
    apply covers_when; intros _.
    apply covers_for_each; intros l _. apply covers_add.
  - cbv beta. rewrite Hst. split; [done|]. exists m. auto.
Qed.

Lemma query_crtsh_complete net domain r data name :
  net (crtsh_url domain) = Answer r → parsed r = Some data →
  crtsh_well_formed data →
  crtsh_candidate net domain name →
  Str.endswith (Str.lower (Str.strip name)) domain = true →
  Str.contains (Str.lower (Str.strip name)) "*" = false →
  Str.lower (Str.strip name) ∈ query_crtsh net domain.
Proof.
  intros Hnet Hdata (entries & Hiter & Hwf).
  intros (r' & data' & entries' & entry & field & Hnet' & Hst & Hdata' & Hiter'
          & Hentry & Hget & Hname) Hend Hstar.
  rewrite Hnet in Hnet'. injection Hnet' as <-.
  rewrite Hdata in Hdata'. injection Hdata' as <-.
  rewrite Hiter in Hiter'. injection Hiter' as <-.
  unfold query_crtsh. eapply covers_try_except.
  - eapply covers_requests_get; [exact Hnet|].
    apply covers_when; intros _.
    eapply covers_response_json; [exact Hdata|].
    eapply covers_call; [exact Hiter|].
    apply (covers_for_each _ _ (λ e h, ∃ f n,
             Py.get e "name_value" (JString "") = inr (JString f)
             ∧ n ∈ Str.split newline f ∧ h = Str.lower (Str.strip n)
             ∧ Str.endswith h domain = true ∧ Str.contains h "*" = false)).
    intros e He. destruct (Hwf e He) as (f & Hf).
    eapply covers_call; [exact Hf|]. eapply covers_call; [reflexivity|].
    eapply covers_weaken.
    + apply covers_for_each; intros n _. apply covers_when; intros _. apply covers_add.
    + cbv beta. intros h (f' & n & Hf' & Hn & -> & Hh1 & Hh2).
      rewrite Hf in Hf'. injection Hf' as <-.
      exists n. by rewrite Hh1, Hh2.
  - cbv beta. rewrite Hst. split; [done|]. exists entry. split; [done|].
    exists field, name. auto.
Qed.

Lemma query_alienvault_complete net domain r data field :
  net (alienvault_url domain) = Answer r → parsed r = Some data →
  alienvault_well_formed data →
  alienvault_candidate net domain field →
  Str.endswith (Str.lower field) domain = true →
  Str.lower field ∈ query_alienvault net domain.
Proof.
  intros Hnet Hdata (records & entries & Hrec & Hiter & Hwf).
  intros (r' & data' & records' & entries' & entry & Hnet' & Hst & Hdata'
          & Hrec' & Hiter' & Hentry & Hget) Hend.
  rewrite Hnet in Hnet'. injection Hnet' as <-.
  rewrite Hdata in Hdata'. injection Hdata' as <-.
  rewrite Hrec in Hrec'. injection Hrec' as <-.
  rewrite Hiter in Hiter'. injection Hiter' as <-.
  unfold query_alienvault. eapply covers_try_except.
  - eapply covers_requests_get; [exact Hnet|].
    apply covers_when; intros _.
    eapply covers_response_json; [exact Hdata|].
    eapply covers_call; [exact Hrec|]. eapply covers_call; [exact Hiter|].
    apply (covers_for_each _ _ (λ e h, ∃ f,
             Py.get e "hostname" (JString "") = inr (JString f)
             ∧ h = Str.lower f ∧ Str.endswith h domain = true)).
    intros e He. destruct (Hwf e He) as (f & Hf).
    eapply covers_call; [exact Hf|]. eapply covers_call; [reflexivity|].
    eapply covers_weaken; [apply covers_when; intros _; apply covers_add|].
    cbv beta. intros h (f' & Hf' & -> & Hh).
    rewrite Hf in Hf'. injection Hf' as <-. by rewrite Hh.
  - cbv beta. rewrite Hst. split; [done|]. exists entry. split; [done|].
    exists field. auto.
Qed.

(** ** The pattern scan *)

Lemma literal_spec lit s :
  Re.literal lit s = true →
  ∃ d rest, s = d +:+ rest ∧ String.length d = String.length lit
            ∧ Str.lower d = Str.lower lit.
Proof.
  revert s; induction lit as [|a lit IH]; intros s; simpl.
  - intros _. by exists "", s.
  - destruct s as [|b s]; [done|].
    intros [Hab%Ascii.eqb_eq (d & rest & -> & Hlen & Hlow)%IH]%andb_true_iff.
    exists (String b d), rest. unfold Str.lower in *; simpl.
    by rewrite Hlen, Hlow, Hab.
Qed.

Lemma tail_spec domain s :
  Re.tail domain s = true →
  ∃ d rest, s = "." +:+ d +:+ rest ∧ String.length d = String.length domain
            ∧ Str.lower d = Str.lower domain.
Proof.
  destruct s as [|c s]; simpl; [done|].
  intros [Hc (d & rest & -> & ? & ?)%literal_spec]%andb_true_iff.
  exists d, rest. split; [|done]. f_equal.
  revert Hc. by_cases_on_char c.
Qed.

Lemma match_label_spec domain s k :
  Re.match_label domain s = Some k →
  ∃ l d rest, s = l +:+ "." +:+ d +:+ rest ∧ String.length l = k ∧ l ≠ ""
              ∧ label_run l = true ∧ String.length d = String.length domain
              ∧ Str.lower d = Str.lower domain.
Proof.
  revert k; induction s as [|c s IH]; intros k; simpl; [done|].
  destruct (Re.label_char c) eqn:Hc; [|done].
  destruct (Re.match_label domain s) as [k'|].
  - intros [= <-].
    destruct (IH k' eq_refl) as (l & d & rest & -> & <- & _ & Hl & Hd & Hlow).
    exists (String c l), d, rest. simpl. by rewrite Hc, Hl.
  - destruct (Re.tail domain s) eqn:Htail; [|done]. intros [= <-].
    apply tail_spec in Htail as (d & rest & -> & Hd & Hlow).
    exists (String c ""), d, rest. simpl. by rewrite Hc.
Qed.

Lemma findall_from_spec domain skip s m :
  m ∈ Re.findall_from domain skip s →
  ∃ l d, m = l +:+ "." +:+ d ∧ l ≠ "" ∧ label_run l = true
         ∧ Str.lower d = Str.lower domain.
Proof.
  revert skip; induction s as [|c s IH]; intros skip.
  - simpl. by intros ?%elem_of_nil.
  - cbn [Re.findall_from]. destruct skip as [|n]; [|apply IH].
    destruct (Re.match_label domain (String c s)) as [k|] eqn:Hk; [|apply IH].
    intros [->|?]%elem_of_cons; [|by eapply IH].
    apply match_label_spec in Hk as (l & d & rest & -> & <- & ? & ? & <- & ?).
    exists l, d. split; [|done].
    replace (l +:+ "." +:+ d +:+ rest) with ((l +:+ "." +:+ d) +:+ rest)
      by (rewrite !string_app_assoc; done).
    replace (String.length l + 1 + String.length d)
      with (String.length (l +:+ "." +:+ d))
      by (rewrite !string_app_length; simpl; lia).
    apply take_app_length.
Qed.

Lemma label_run_lower l : label_run (Str.lower l) = label_run l.
Proof.
  unfold Str.lower. induction l as [|c l IH]; simpl; [done|].
  by rewrite label_char_lower, IH.
Qed.

Lemma query_rapiddns_dotted net domain h :
  h ∈ query_rapiddns net domain → dotted_under (Str.lower domain) h.
Proof.
  intros (m & (r & _ & _ & Hm) & ->)%query_rapiddns_sound.
  apply findall_from_spec in Hm as (l & d & -> & Hl & Hrun & Hd).
  exists (Str.lower l). rewrite !lower_app, Hd, label_run_lower.
  split; [|done]. by destruct l.
Qed.

(** ** Merging and sorting *)

Lemma elem_of_sorted subdomains h : h ∈ sorted subdomains ↔ h ∈ subdomains.
Proof. unfold sorted. rewrite merge_sort_Permutation. apply elem_of_elements. Qed.

Lemma NoDup_sorted subdomains : NoDup (sorted subdomains).
Proof. unfold sorted. rewrite merge_sort_Permutation. apply NoDup_elements. Qed.


Lemma sorted_empty : sorted ∅ = [].
Proof. unfold sorted. by rewrite elements_empty. Qed.

Lemma elem_of_foldl_collect futures acc h :
  h ∈ foldl collect acc futures ↔ h ∈ acc ∨ ∃ s, inr s ∈ futures ∧ h ∈ s.
Proof.
  revert acc; induction futures as [|future futures IH]; intros acc; simpl.
  - split; [auto|]. intros [?|(s & ?%elem_of_nil & _)]; done.
  - rewrite IH. destruct future as [e|s]; simpl.
    + split; intros [?|(s' & Hs' & ?)]; eauto.
      * right. exists s'. split; [by right|done].
      * apply elem_of_cons in Hs' as [[=]|?]; eauto.
    + rewrite elem_of_union. split.
      * intros [[?|?]|(s' & Hs' & ?)]; eauto.
        -- right. exists s. split; [by left|done].
        -- right. exists s'. split; [by right|done].
      * intros [?|(s' & Hs' & ?)]; eauto.
        apply elem_of_cons in Hs' as [[= ->]|?]; eauto.
Qed.

Lemma elem_of_merge futures h :
  h ∈ merge futures ↔ ∃ s, inr s ∈ futures ∧ h ∈ s.
Proof.
  unfold merge. rewrite elem_of_foldl_collect. split; [|eauto].
  intros [?%not_elem_of_empty|?]; done.
Qed.


Lemma merge_successes futures : merge futures = ⋃ successes futures.
Proof.
  apply set_eq. intros h. rewrite elem_of_merge, elem_of_union_list.
  unfold successes. setoid_rewrite list_elem_of_omap. split.
  - intros (s & ? & ?). exists s. split; [|done]. by exists (inr s).
  - intros (s & ([e|s'] & ? & [= ->]) & ?). eauto.
Qed.

Lemma elem_of_enumerate_subdomains net completion domain h :
  h ∈ enumerate_subdomains net completion domain
  ↔ ∃ p, p ∈ completion ∧ h ∈ query p net domain.
Proof.
  unfold enumerate_subdomains, submit. rewrite elem_of_merge. split.
  - intros (s & (p & [= ->] & ?)%list_elem_of_fmap & ?). eauto.
  - intros (p & ? & ?). exists (query p net domain). split; [|done].
    apply list_elem_of_fmap. eauto.
Qed.


Lemma query_failed p net domain :
  failed p (net (url p domain)) = true → query p net domain = ∅.
Proof.
  destruct p; simpl;
    unfold query_crtsh, query_hackertarget, query_rapiddns, query_alienvault,
      try_except, mbind, block_bind, requests_get, response_json;
    (destruct (net _) as [|[status body [data|]]]; simpl; [done|..]);
    destruct (status =? 200)%Z; simpl; done.
Qed.

(** ** The wildcard character *)

Lemma contains_char_nil c : Str.contains "" (String c "") = false.
Proof. reflexivity. Qed.

Lemma contains_char_cons c a s :
  Str.contains (String a s) (String c "")
  = Ascii.eqb c a || Str.contains s (String c "").
Proof. cbn [Str.contains Str.startswith]. by rewrite andb_true_r. Qed.

Lemma contains_char_app c s1 s2 :
  Str.contains (s1 +:+ s2) (String c "")
  = Str.contains s1 (String c "") || Str.contains s2 (String c "").
Proof.
  induction s1 as [|a s1 IH]; [done|].
  change (String a s1 +:+ s2) with (String a (s1 +:+ s2)).
  by rewrite !contains_char_cons, IH, orb_assoc.
Qed.

Lemma star_lower a : Ascii.eqb "*" (Char.lower a) = Ascii.eqb "*" a.
Proof. by_cases_on_char a. Qed.

Lemma star_not_label a : Re.label_char a = true → Ascii.eqb "*" a = false.
Proof. by_cases_on_char a. Qed.

Lemma contains_star_lower s : Str.contains (Str.lower s) "*" = Str.contains s "*".
Proof.
  unfold Str.lower. induction s as [|a s IH]; [done|].
  cbn [Str.map]. by rewrite !contains_char_cons, star_lower, IH.
Qed.

Lemma label_run_no_star l : label_run l = true → Str.contains l "*" = false.
Proof.
  induction l as [|a l IH]; [done|]. cbn [label_run].
  intros [Ha Hl]%andb_true_iff.
  by rewrite contains_char_cons, (star_not_label a Ha), IH.
Qed.

Lemma dotted_under_no_star domain h :
  dotted_under (Str.lower domain) h →
  Str.contains domain "*" = false → Str.contains h "*" = false.
Proof.
  intros (l & _ & Hl & ->) Hdomain.
  by rewrite !contains_char_app, contains_star_lower, Hdomain, label_run_no_star.
Qed.

(** ** Blanks *)

Lemma isspace_lower c : Char.isspace (Char.lower c) = Char.isspace c.
Proof. by_cases_on_char c. Qed.

Lemma lstrip_head s c rest : Str.lstrip s = String c rest → Char.isspace c = false.
Proof.
  induction s as [|a s IH]; simpl; [done|].
  destruct (Char.isspace a) eqn:Ha; [done|]. by intros [= <- _].
Qed.

Lemma lower_strip_head name c rest :
  Str.lower (Str.strip name) = String c rest → Char.isspace c = false.
Proof.
  unfold Str.strip, Str.lower.
  destruct (Str.lstrip (Str.rstrip name)) as [|a s] eqn:Hstrip; simpl; [done|].
  intros [= <- _]. rewrite isspace_lower. by eapply lstrip_head.
Qed.

(** * The specification, statement by statement *)

(** C1.  Whatever providers fail (request raised, status other than 200,
    body that is not JSON where JSON is read), the enumeration returns the
    union of the sets of the providers that did not fail: a failed
    provider contributes the empty set.  When all four fail the enumeration
    is empty and [main], asked for no output file, returns the empty list;
    no exception reaches the caller. *)
Theorem enumeration_survives_failures net completion domain :
  completion ≡ₚ providers →
  (∀ p, failed p (net (url p domain)) = true → query p net domain = ∅)
  ∧ enumerate_subdomains net completion domain
    = ⋃ ((λ p, query p net domain)
         <$> filter (λ p, failed p (net (url p domain)) = false) providers)
  ∧ ((∀ p, failed p (net (url p domain)) = true) →
     enumerate_subdomains net completion domain = ∅
     ∧ ∀ args flt fs,
         Str.strip (Str.lower (arg_domain args)) = domain →
         output_given args = None →
         main args net completion flt fs = (fs, inr [])).
Proof.
  intros Hperm.
  assert (Hall : (∀ p, failed p (net (url p domain)) = true) →
                 enumerate_subdomains net completion domain = ∅).
  { intros Hfail. apply set_eq. intros h.
    rewrite elem_of_enumerate_subdomains. split; [|by intros ?%not_elem_of_empty].
    intros (p & _ & Hh). by rewrite (query_failed p) in Hh. }
  split; [intros p; apply query_failed|]. split.
  - apply set_eq. intros h.
    rewrite elem_of_enumerate_subdomains, elem_of_union_list. split.
    + intros (p & Hp & Hh). exists (query p net domain). split; [|done].
      apply list_elem_of_fmap. exists p. split; [done|].
      apply list_elem_of_filter. rewrite <- Hperm. split; [|done].
      destruct (failed p (net (url p domain))) eqn:Hfail; [|done].
      by rewrite (query_failed p) in Hh.
    + intros (s & (p & -> & [_ Hp]%list_elem_of_filter)%list_elem_of_fmap & Hh).
      exists p. by rewrite Hperm.
  - intros Hfail. split; [by apply Hall|].
    intros args flt fs Hdomain Hout. unfold main.
    by rewrite Hout, Hdomain, (Hall Hfail), sorted_empty.
Qed.

Lemma enumeration_survives_failures_witness :
  some_completion ≡ₚ providers
  ∧ enumerate_subdomains partial_net some_completion "example.com"
    = {["api.example.com"; "shop.example.com"]}.
Proof.
  assert (Hperm : some_completion ≡ₚ providers)
    by (apply (bool_decide_unpack _); vm_compute; exact I).
  split; [exact Hperm|].
  destruct (enumeration_survives_failures partial_net some_completion
              "example.com" Hperm) as (_ & -> & _).
  vm_compute. reflexivity.
Defined.



(** C5.  A hostname that two providers report, in whatever letter case,
    is in the merged result exactly once and in lowercase: every provider
    lowers what it keeps, so all entries are lowercase, whatever a provider
    reports is an entry, and no entry occurs twice; for instance
    [www.example.com] from one provider and [WWW.example.com] from another
    give the one entry [www.example.com]. *)
Theorem merged_result_lowercase_without_duplicates net completion domain :
  let merged := sorted (enumerate_subdomains net completion domain) in
  NoDup merged
  ∧ (∀ h, h ∈ merged → lowered h)
  ∧ (∀ p h, p ∈ completion → h ∈ query p net domain → h ∈ merged)
  ∧ (∀ h1 h2, h1 ∈ merged → h2 ∈ merged → Str.lower h1 = Str.lower h2 → h1 = h2)
  ∧ sorted (enumerate_subdomains case_net providers "example.com")
    = ["www.example.com"].
Proof.
  intros merged.
  assert (Hlow : ∀ h, h ∈ merged → lowered h).
  { intros h. unfold merged. rewrite elem_of_sorted, elem_of_enumerate_subdomains.
    intros ([] & _ & Hh); simpl in Hh; unfold lowered.
    - apply query_crtsh_sound in Hh as (? & _ & -> & _). apply lower_idemp.
    - apply query_hackertarget_sound in Hh as (? & _ & -> & _). apply lower_idemp.
    - apply query_rapiddns_sound in Hh as (? & _ & ->). apply lower_idemp.
    - apply query_alienvault_sound in Hh as (? & _ & -> & _). apply lower_idemp. }
  split; [apply NoDup_sorted|]. split; [exact Hlow|]. split; [|split].
  - intros p h Hp Hh. unfold merged.
    rewrite elem_of_sorted, elem_of_enumerate_subdomains. eauto.
  - intros h1 h2 H1%Hlow H2%Hlow. unfold lowered in *. congruence.
  - vm_compute. reflexivity.
Qed.

(** C6.  HackerTarget, domain [example.com]: the body
    [sub.example.com,93.184.216.34] gives the set of [sub.example.com]
    alone; and a body in which [error] occurs anywhere gives the empty
    set, whatever else it holds. *)
Theorem hackertarget_line_and_error_body :
  (∀ net other,
     net (hackertarget_url "example.com")
     = Answer (Response 200 "sub.example.com,93.184.216.34" other) →
     query_hackertarget net "example.com" = {["sub.example.com"]})
  ∧ ∀ net domain r before after,
      net (hackertarget_url domain) = Answer r →
      text r = before +:+ "error" +:+ after →
      query_hackertarget net domain = ∅.
Proof.
  split.
  - intros net other Hnet.
    unfold query_hackertarget, try_except, mbind, block_bind, requests_get.
    rewrite Hnet. vm_compute. reflexivity.
  - intros net domain r before after Hnet Htext.
    assert (Herr : Str.contains (Str.lower (text r)) "error" = true).
    { apply (contains_lower _ "error"), contains_spec. eauto. }
    unfold query_hackertarget, try_except, mbind, block_bind, requests_get.
    rewrite Hnet. simpl. rewrite Herr, andb_false_r. reflexivity.
Qed.

(** C8.  The suffix filter is a plain string-suffix test, with no dot
    boundary: it holds exactly of the strings that are some prefix followed
    by the domain.  So for [example.com] the candidate [notexample.com]
    passes and is kept, by the crt.sh extraction and by the HackerTarget
    one. *)
Theorem suffix_filter_has_no_dot_boundary :
  (∀ s d, Str.endswith s d = true ↔ ∃ prefix, s = prefix +:+ d)
  ∧ Str.endswith "notexample.com" "example.com" = true
  ∧ query_crtsh overmatch_net "example.com" = {["notexample.com"]}
  ∧ query_hackertarget overmatch_net "example.com" = {["notexample.com"]}
  ∧ ∀ net domain field prefix,
      hackertarget_candidate net domain field →
      Str.lower (Str.strip field) = prefix +:+ domain →
      Str.lower (Str.strip field) ∈ query_hackertarget net domain.
Proof.
  split; [apply endswith_spec|]. split; [reflexivity|].
  split; [vm_compute; reflexivity|]. split; [vm_compute; reflexivity|].
  intros net domain field prefix Hfield Hsuffix.
  apply query_hackertarget_complete; [done|]. apply endswith_spec. eauto.
Qed.

(** ** The output file *)

Lemma release_head f hs : File.release f (f :: hs) = hs.
Proof. simpl. by rewrite String.eqb_refl. Qed.

Lemma with_open_write flt path data fs :
  File.with_open flt path (λ f, File.write flt f data) fs
  = if open_fails flt path then (fs, inl OSError)
    else if write_fails flt path
         then (FileSystem (<[path := ""]> (files fs)) (handles fs), inl OSError)
         else (FileSystem (<[path := data]> (files fs)) (handles fs), inr tt).
Proof.
  unfold File.with_open, File.open, File.write, File.close.
  destruct (open_fails flt path); [done|].
  destruct (write_fails flt path); simpl; rewrite String.eqb_refl; [done|].
  by rewrite alter_insert_eq.
Qed.

(** C9.  When an output path is given ([args.output] is neither absent nor
    empty), [main] writes exactly the sorted sequence joined by newlines to
    that file, inside a [with] block: whether the run returns or [open] or
    [write] raises, the handles open afterwards are those open before.
    When neither raises the file holds exactly the joined sequence and
    [main] returns the sequence; whenever [main] returns, the file holds
    what it returns, joined. *)
Theorem output_file_written_and_closed args net completion flt fs path :
  output_given args = Some path →
  let sorted_subdomains :=
    sorted (enumerate_subdomains net completion
              (Str.strip (Str.lower (arg_domain args)))) in
  let run := main args net completion flt fs in
  handles run.1 = handles fs
  ∧ (open_fails flt path = false → write_fails flt path = false →
     run.2 = inr sorted_subdomains
     ∧ files run.1
       = <[path := Str.join (String newline "") sorted_subdomains]> (files fs))
  ∧ (∀ l, run.2 = inr l →
     l = sorted_subdomains
     ∧ files run.1 !! path = Some (Str.join (String newline "") l))
  ∧ (∀ e, run.2 = inl e →
     e = OSError ∧ ∀ other, other ≠ path → files run.1 !! other = files fs !! other).
Proof.
  intros Hout sorted_subdomains run. subst run. unfold main.
  rewrite Hout, with_open_write. fold sorted_subdomains.
  destruct (open_fails flt path), (write_fails flt path); simpl;
    (split; [done|]); (split; [by try (intros [=])|]);
    (split; [intros l [= <-] || intros l [=]|intros e [= <-] || intros e [=]]).
  all: try (split; [done|intros other Hne; by rewrite ?lookup_insert_ne]).
  split; [done|]. by rewrite lookup_insert_eq.
Qed.

Lemma output_file_written_and_closed_witness :
  let args := Args "Example.COM " (Some "out.txt") in
  output_given args = Some "out.txt"
  ∧ main args partial_net some_completion picky busy_fs
    = (FileSystem {["old.txt" := "stale";
                    "out.txt" := "api.example.com" +:+ String newline "shop.example.com"]}
         ["debug.log"],
       inr ["api.example.com"; "shop.example.com"])
  ∧ handles (main args partial_net some_completion picky busy_fs).1
    = handles busy_fs.
Proof.
  intros args. split; [reflexivity|]. split; [vm_compute; reflexivity|].
  apply (output_file_written_and_closed args partial_net some_completion picky
           busy_fs "out.txt").
  reflexivity.
Defined.

(** ** Statements the code departs from *)

(** C2, as stated, fails: HackerTarget keeps the wildcard record
    [*.example.com]. *)
Lemma hackertarget_keeps_wildcard :
  ¬ (∀ p net domain h,
       h ∈ query p net domain →
       Str.endswith h domain = true ∧ Str.contains h "*" = false).
Proof.
  intros Hclaim.
  destruct (Hclaim HackerTarget wildcard_net "example.com" "*.example.com")
    as [_ Hstar].
  - apply (bool_decide_unpack _). vm_compute. exact I.
  - vm_compute in Hstar. discriminate Hstar.
Qed.


(** C7, as stated, fails: AlienVault keeps a hostname with the blank it
    came with, which no trimmed name is. *)
Lemma alienvault_does_not_trim :
  ¬ (∀ net domain h,
       h ∈ query_alienvault net domain → ∃ name, h = Str.lower (Str.strip name)).
Proof.
  intros Hclaim.
  destruct (Hclaim untrimmed_net "example.com" " a.example.com") as [name Hname].
  - apply (bool_decide_unpack _). vm_compute. exact I.
  - symmetry in Hname. apply lower_strip_head in Hname. discriminate Hname.
Qed.

(** C7, amended.  crt.sh: each name read from the [name_value] field of a
    record, after the field is split on newlines, is trimmed and then
    lowered before the filter (suffix, no [*]) is applied.  AlienVault:
    the [hostname] field of a record is one name; it is lowered, neither
    split nor trimmed, before the suffix filter is applied.  For a body of
    the expected shape the result set is exactly the set of the names so
    obtained that pass the filter. *)
Theorem structured_list_normalisation net domain h :
  (h ∈ query_crtsh net domain →
   ∃ name, crtsh_candidate net domain name ∧ h = Str.lower (Str.strip name)
           ∧ Str.endswith h domain = true ∧ Str.contains h "*" = false)
  ∧ (h ∈ query_alienvault net domain →
     ∃ field, alienvault_candidate net domain field ∧ h = Str.lower field
              ∧ Str.endswith h domain = true)
  ∧ (∀ r data,
       net (crtsh_url domain) = Answer r → parsed r = Some data →
       crtsh_well_formed data →
       (∃ name, crtsh_candidate net domain name ∧ h = Str.lower (Str.strip name)
                ∧ Str.endswith h domain = true ∧ Str.contains h "*" = false) →
       h ∈ query_crtsh net domain)
  ∧ (∀ r data,
       net (alienvault_url domain) = Answer r → parsed r = Some data →
       alienvault_well_formed data →
       (∃ field, alienvault_candidate net domain field ∧ h = Str.lower field
                 ∧ Str.endswith h domain = true) →
       h ∈ query_alienvault net domain).
Proof.
  split; [apply query_crtsh_sound|]. split; [apply query_alienvault_sound|]. split.
  - intros r data Hnet Hdata Hwf (name & Hname & -> & Hends & Hstar).
    by eapply query_crtsh_complete.
  - intros r data Hnet Hdata Hwf (field & Hfield & -> & Hends).
    by eapply query_alienvault_complete.
Qed.

Lemma structured_list_normalisation_witness :
  " a.example.com" ∈ query_alienvault untrimmed_net "example.com"
  ∧ ∃ field, alienvault_candidate untrimmed_net "example.com" field
             ∧ " a.example.com" = Str.lower field.
Proof.
  assert (Hin : " a.example.com" ∈ query_alienvault untrimmed_net "example.com")
    by (apply (bool_decide_unpack _); vm_compute; exact I).
  split; [exact Hin|].
  destruct (structured_list_normalisation untrimmed_net "example.com"
              " a.example.com") as (_ & Hsound & _).
  destruct (Hsound Hin) as (field & Hfield & Hlower & _). by exists field.
Defined.

(** ** Instances *)

Lemma merged_result_lowercase_without_duplicates_witness :
  "www.example.com" ∈ query HackerTarget case_net "example.com"
  ∧ "www.example.com" ∈ sorted (enumerate_subdomains case_net some_completion "example.com")
  ∧ NoDup (sorted (enumerate_subdomains case_net some_completion "example.com")).
Proof.
  assert (Hin : "www.example.com" ∈ query HackerTarget case_net "example.com")
    by (apply (bool_decide_unpack _); vm_compute; exact I).
  destruct (merged_result_lowercase_without_duplicates case_net some_completion
              "example.com") as (Hnodup & _ & Hkept & _).
  split; [exact Hin|]. split; [|exact Hnodup].
  apply (Hkept HackerTarget); [|exact Hin]. by left.
Defined.

Lemma hackertarget_line_and_error_body_witness :
  let net := answers [(hackertarget_url "example.com",
                       ok_text ("sub.example.com,93.184.216.34"
                                +:+ String newline "API count exceeded: error 429"))] in
  query_hackertarget net "example.com" = ∅.
Proof.
  intros net. destruct hackertarget_line_and_error_body as [_ Herror].
  apply (Herror net "example.com"
           (Response 200 ("sub.example.com,93.184.216.34"
                          +:+ String newline "API count exceeded: error 429") None)
           ("sub.example.com,93.184.216.34" +:+ String newline "API count exceeded: ")
           " 429"); reflexivity.
Defined.

Lemma suffix_filter_has_no_dot_boundary_witness :
  hackertarget_candidate overmatch_net "example.com" "notexample.com"
  ∧ "notexample.com" ∈ query_hackertarget overmatch_net "example.com".
Proof.
  assert (Hfield : hackertarget_candidate overmatch_net "example.com" "notexample.com").
  { exists (Response 200 "notexample.com,93.184.216.34" None),
      "notexample.com,93.184.216.34".
    repeat split. by left. }
  split; [exact Hfield|].
  destruct suffix_filter_has_no_dot_boundary as (_ & _ & _ & _ & Hkept).
  apply (Hkept overmatch_net "example.com" "notexample.com" "not" Hfield).
  reflexivity.
Defined.

(** * Further properties of the script *)

(** ** A record the scan cannot read *)

Lemma for_each_app {A} (xs ys : list A) (body : A → block unit) s :
  for_each (xs ++ ys) body s
  = match for_each xs body s with
    | (s', inr _) => for_each ys body s'
    | (s', inl e) => (s', inl e)
    end.
Proof.
  revert s; induction xs as [|x xs IH]; intros s; simpl; [done|].
  unfold mbind, block_bind. destruct (body x s) as [s1 [e|[]]]; [done|apply IH].
Qed.

Lemma for_each_truncated {A} (good rest : list A) bad (body : A → block unit) s :
  (∀ s', ∃ e, body bad s' = (s', inl e)) →
  (for_each (good ++ bad :: rest) body s).1 = (for_each good body s).1.
Proof.
  intros Hbad. rewrite for_each_app.
  destruct (for_each good body s) as [s' [e|u]]; [done|]. simpl.
  unfold mbind, block_bind. by destruct (Hbad s') as [e ->].
Qed.

Lemma for_each_skipped {A} (before after : list A) x (body : A → block unit) s :
  (∀ s', body x s' = (s', inr tt)) →
  for_each (before ++ x :: after) body s = for_each (before ++ after) body s.
Proof.
  intros Hx. rewrite !for_each_app.
  destruct (for_each before body s) as [s' [e|u]]; [done|]. simpl.
  unfold mbind, block_bind. by rewrite Hx.
Qed.

Lemma endswith_empty_false domain : domain ≠ "" → Str.endswith "" domain = false.
Proof. by destruct domain. Qed.

(** A provider as a state transformer: the monad laid bare. *)
Ltac lay_bare :=
  unfold query_crtsh, query_hackertarget, query_rapiddns, query_alienvault,
    try_except, mbind, block_bind, requests_get, response_json.

(** X1.  crt.sh stops at the first record it cannot read (a record that is
    not an object, or whose [name_value] is not a string): the names of the
    records before it are kept, the records after it are not looked at. *)
Theorem crtsh_stops_at_unreadable_record
    net net' domain r r' good bad rest :
  net (crtsh_url domain) = Answer r → status_code r = 200%Z →
  parsed r = Some (JArray (good ++ bad :: rest)) →
  net' (crtsh_url domain) = Answer r' → status_code r' = 200%Z →
  parsed r' = Some (JArray good) →
  (∀ field, Py.get bad "name_value" (JString "") ≠ inr (JString field)) →
  query_crtsh net domain = query_crtsh net' domain.
Proof.
  intros Hnet Hst Hdata Hnet' Hst' Hdata' Hbad.
  lay_bare. rewrite Hnet, Hnet'. simpl. rewrite Hst, Hst', Hdata, Hdata'. simpl.
  apply for_each_truncated. intros s'.
  destruct (Py.get bad "name_value" (JString "")) as [e|v] eqn:Hget; [eauto|].
  destruct v; simpl; eauto. by destruct (Hbad s).
Qed.

Lemma crtsh_stops_at_unreadable_record_witness :
  query_crtsh
    (answers [(crtsh_url "example.com",
               ok_json (JArray [JObject [("name_value", JString "a.example.com")];
                                JNull;
                                JObject [("name_value", JString "b.example.com")]]))])
    "example.com"
  = {["a.example.com"]}.
Proof.
  etrans.
  - eapply (crtsh_stops_at_unreadable_record _
              (answers [(crtsh_url "example.com",
                         ok_json (JArray [JObject [("name_value",
                                                    JString "a.example.com")]]))])
              "example.com" _ _
              [JObject [("name_value", JString "a.example.com")]] JNull
              [JObject [("name_value", JString "b.example.com")]]);
      [reflexivity..|]. intros field. discriminate.
  - vm_compute. reflexivity.
Defined.

(** X2.  AlienVault stops at the first record it cannot read (a record that
    is not an object, or whose [hostname] is not a string): the hostnames of
    the records before it are kept, the records after it are not looked
    at. *)
Theorem alienvault_stops_at_unreadable_record
    net net' domain r r' data data' good bad rest :
  net (alienvault_url domain) = Answer r → status_code r = 200%Z →
  parsed r = Some data →
  Py.get data "passive_dns" (JArray []) = inr (JArray (good ++ bad :: rest)) →
  net' (alienvault_url domain) = Answer r' → status_code r' = 200%Z →
  parsed r' = Some data' →
  Py.get data' "passive_dns" (JArray []) = inr (JArray good) →
  (∀ field, Py.get bad "hostname" (JString "") ≠ inr (JString field)) →
  query_alienvault net domain = query_alienvault net' domain.
Proof.
  intros Hnet Hst Hdata Hrec Hnet' Hst' Hdata' Hrec' Hbad.
  lay_bare. rewrite Hnet, Hnet'. simpl. rewrite Hst, Hst', Hdata, Hdata'.
  cbn -[for_each Py.get]. rewrite Hrec, Hrec'. simpl.
  apply for_each_truncated. intros s'.
  destruct (Py.get bad "hostname" (JString "")) as [e|v] eqn:Hget; [eauto|].
  destruct v; simpl; eauto. by destruct (Hbad s).
Qed.

Lemma alienvault_stops_at_unreadable_record_witness :
  query_alienvault
    (answers [(alienvault_url "example.com",
               ok_json (JObject [("passive_dns",
                  JArray [JObject [("hostname", JString "a.example.com")];
                          JObject [("hostname", JNumber "7")];
                          JObject [("hostname", JString "b.example.com")]])]))])
    "example.com"
  = {["a.example.com"]}.
Proof.
  etrans.
  - eapply (alienvault_stops_at_unreadable_record _
              (answers [(alienvault_url "example.com",
                         ok_json (JObject [("passive_dns",
                            JArray [JObject [("hostname", JString "a.example.com")]])]))])
              "example.com" _ _ _ _
              [JObject [("hostname", JString "a.example.com")]]
              (JObject [("hostname", JNumber "7")])
              [JObject [("hostname", JString "b.example.com")]]);
      [reflexivity..|]. intros field. discriminate.
  - vm_compute. reflexivity.
Defined.

(** ** A record without the field *)

(** X3.  For a domain that is not empty, a crt.sh record that has no
    [name_value] (an object without the key) adds nothing and does not stop
    the scan: the result is that of the list without the record. *)
Theorem crtsh_skips_record_without_name_value
    net net' domain r r' before members after :
  domain ≠ "" →
  net (crtsh_url domain) = Answer r → status_code r = 200%Z →
  parsed r = Some (JArray (before ++ JObject members :: after)) →
  net' (crtsh_url domain) = Answer r' → status_code r' = 200%Z →
  parsed r' = Some (JArray (before ++ after)) →
  Py.lookup "name_value" members = None →
  query_crtsh net domain = query_crtsh net' domain.
Proof.
  intros Hdomain Hnet Hst Hdata Hnet' Hst' Hdata' Hkey.
  lay_bare. rewrite Hnet, Hnet'. simpl. rewrite Hst, Hst', Hdata, Hdata'. simpl.
  f_equal. apply for_each_skipped. intros s'. simpl. rewrite Hkey. simpl.
  change (Str.lower (Str.strip "")) with "".
  by rewrite (endswith_empty_false domain Hdomain).
Qed.

Lemma crtsh_skips_record_without_name_value_witness :
  query_crtsh
    (answers [(crtsh_url "example.com",
               ok_json (JArray [JObject [("name_value", JString "a.example.com")];
                                JObject [("id", JNumber "7")];
                                JObject [("name_value", JString "b.example.com")]]))])
    "example.com"
  = {["a.example.com"; "b.example.com"]}.
Proof.
  etrans.
  - eapply (crtsh_skips_record_without_name_value _
              (answers [(crtsh_url "example.com",
                         ok_json (JArray [JObject [("name_value", JString "a.example.com")];
                                          JObject [("name_value", JString "b.example.com")]]))])
              "example.com" _ _
              [JObject [("name_value", JString "a.example.com")]]
              [("id", JNumber "7")]
              [JObject [("name_value", JString "b.example.com")]]);
      [discriminate|reflexivity..].
  - vm_compute. reflexivity.
Defined.

(** X4.  For a domain that is not empty, an AlienVault record that has no
    [hostname] (an object without the key) adds nothing and does not stop
    the scan: the result is that of the list without the record. *)
Theorem alienvault_skips_record_without_hostname
    net net' domain r r' data data' before members after :
  domain ≠ "" →
  net (alienvault_url domain) = Answer r → status_code r = 200%Z →
  parsed r = Some data →
  Py.get data "passive_dns" (JArray [])
  = inr (JArray (before ++ JObject members :: after)) →
  net' (alienvault_url domain) = Answer r' → status_code r' = 200%Z →
  parsed r' = Some data' →
  Py.get data' "passive_dns" (JArray []) = inr (JArray (before ++ after)) →
  Py.lookup "hostname" members = None →
  query_alienvault net domain = query_alienvault net' domain.
Proof.
  intros Hdomain Hnet Hst Hdata Hrec Hnet' Hst' Hdata' Hrec' Hkey.
  lay_bare. rewrite Hnet, Hnet'. simpl. rewrite Hst, Hst', Hdata, Hdata'.
  cbn -[for_each Py.get]. rewrite Hrec, Hrec'. simpl.
  f_equal. apply for_each_skipped. intros s'. simpl. rewrite Hkey. simpl.
  change (Str.lower "") with "".
  by rewrite (endswith_empty_false domain Hdomain).
Qed.

Lemma alienvault_skips_record_without_hostname_witness :
  query_alienvault
    (answers [(alienvault_url "example.com",
               ok_json (JObject [("passive_dns",
                  JArray [JObject [("address", JString "93.184.216.34")];
                          JObject [("hostname", JString "b.example.com")]])]))])
    "example.com"
  = {["b.example.com"]}.
Proof.
  etrans.
  - eapply (alienvault_skips_record_without_hostname _
              (answers [(alienvault_url "example.com",
                         ok_json (JObject [("passive_dns",
                            JArray [JObject [("hostname", JString "b.example.com")]])]))])
              "example.com" _ _ _ _ []
              [("address", JString "93.184.216.34")]
              [JObject [("hostname", JString "b.example.com")]]);
      [discriminate|reflexivity..].
  - vm_compute. reflexivity.
Defined.

(** ** Domains the suffix filter can never be met for *)

Lemma lower_app_inv s1 s2 : lowered (s1 +:+ s2) → lowered s2.
Proof.
  unfold lowered, Str.lower. induction s1 as [|c s1 IH]; simpl; [done|].
  intros [= _ ?]. auto.
Qed.

Lemma query_lowered p net domain h : h ∈ query p net domain → lowered h.
Proof.
  unfold lowered. destruct p; simpl; intros Hh.
  - apply query_crtsh_sound in Hh as (? & _ & -> & _). apply lower_idemp.
  - apply query_hackertarget_sound in Hh as (? & _ & -> & _). apply lower_idemp.
  - apply query_rapiddns_sound in Hh as (? & _ & ->). apply lower_idemp.
  - apply query_alienvault_sound in Hh as (? & _ & -> & _). apply lower_idemp.
Qed.

Lemma query_endswith p net domain h :
  p ≠ RapidDNS → h ∈ query p net domain → Str.endswith h domain = true.
Proof.
  destruct p; simpl; intros Hp Hh; [| |done|].
  - by apply query_crtsh_sound in Hh as (? & _ & _ & ? & _).
  - by apply query_hackertarget_sound in Hh as (? & _ & _ & ?).
  - by apply query_alienvault_sound in Hh as (? & _ & _ & ?).
Qed.

(** X5.  crt.sh returns nothing for a domain that contains [*]: a name
    must end with the domain and have no [*]. *)
Theorem crtsh_empty_for_domain_with_star net domain :
  Str.contains domain "*" = true → query_crtsh net domain = ∅.
Proof.
  intros Hstar. apply elem_of_equiv_empty_L. intros h Hh.
  apply query_crtsh_sound in Hh as (_ & _ & _ & [prefix ->]%endswith_spec & Hno).
  rewrite contains_char_app, Hstar, orb_true_r in Hno. discriminate Hno.
Qed.

Lemma crtsh_empty_for_domain_with_star_witness :
  query_crtsh
    (answers [(crtsh_url "*.example.com",
               ok_json (JArray [JObject [("name_value", JString "a.example.com");
                                         ("common_name", JString "*.example.com")]]))])
    "*.example.com"
  = ∅.
Proof. apply crtsh_empty_for_domain_with_star. reflexivity. Defined.

(** X6.  The three suffix-checking providers return nothing for a domain
    that is not in lowercase: what they keep is lowered, and no lowered
    name ends with such a domain.  ([main] lowers the domain first.) *)
Theorem suffix_providers_empty_for_mixed_case_domain p net domain :
  p ≠ RapidDNS → Str.lower domain ≠ domain → query p net domain = ∅.
Proof.
  intros Hp Hdomain. apply elem_of_equiv_empty_L. intros h Hh.
  pose proof (query_endswith p net domain h Hp Hh) as Hends.
  apply endswith_spec in Hends as [prefix Hprefix].
  apply query_lowered in Hh. rewrite Hprefix in Hh.
  by apply lower_app_inv in Hh.
Qed.

Lemma suffix_providers_empty_for_mixed_case_domain_witness :
  query HackerTarget
    (answers [(hackertarget_url "Example.com", ok_text "www.example.com,93.184.216.34")])
    "Example.com"
  = ∅.
Proof.
  apply suffix_providers_empty_for_mixed_case_domain; discriminate.
Defined.

(** ** Pieces of a string *)



Lemma occurs_in_refl s : occurs_in s s.
Proof. exists "", "". by rewrite string_app_nil. Qed.

Lemma occurs_in_trans x y z : occurs_in x y → occurs_in y z → occurs_in x z.
Proof.
  intros (p & q & ->) (p' & q' & ->). exists (p' +:+ p), (q +:+ q').
  by rewrite !string_app_assoc.
Qed.

Lemma occurs_in_contains x s : occurs_in x s ↔ Str.contains s x = true.
Proof. symmetry. apply contains_spec. Qed.

Lemma occurs_in_lower x s : occurs_in x s → occurs_in (Str.lower x) (Str.lower s).
Proof.
  intros (p & q & ->). exists (Str.lower p), (Str.lower q). by rewrite !lower_app.
Qed.

Lemma occurs_in_suffix x s : Str.endswith s x = true → occurs_in x s.
Proof.
  intros [p ->]%endswith_spec. exists p, "". by rewrite string_app_nil.
Qed.

Lemma split_head_prefix sep s : ∃ q, s = hd "" (Str.split sep s) +:+ q.
Proof.
  induction s as [|c s [q Hq]]; simpl; [by exists ""|].
  destruct (Ascii.eqb c sep); simpl; [by exists (String c s)|].
  destruct (Str.split sep s) as [|first rest]; simpl in *.
  - exists s. done.
  - exists q. by rewrite <- Hq.
Qed.

Lemma split_elem_occurs sep s x : x ∈ Str.split sep s → occurs_in x s.
Proof.
  revert x; induction s as [|c s IH]; intros x; simpl.
  - intros ->%list_elem_of_singleton. apply occurs_in_refl.
  - assert (Hlater : ∀ y, occurs_in y s → occurs_in y (String c s)).
    { intros y (p & q & ->). by exists (String c p), q. }
    destruct (Ascii.eqb c sep).
    + intros [->|Hx]%elem_of_cons; [by exists "", (String c s)|auto].
    + pose proof (split_head_prefix sep s) as [q Hq].
      destruct (Str.split sep s) as [|first rest]; simpl in *.
      * intros ->%list_elem_of_singleton. exists "", s. done.
      * intros [->|Hx]%elem_of_cons.
        -- exists "", q. simpl. by rewrite <- Hq.
        -- apply Hlater, IH. by right.
Qed.

Lemma lstrip_suffix s : ∃ p, s = p +:+ Str.lstrip s.
Proof.
  induction s as [|c s [p Hp]]; simpl; [by exists ""|].
  destruct (Char.isspace c); [|by exists ""].
  exists (String c p). simpl. by rewrite <- Hp.
Qed.

Lemma rstrip_prefix s : ∃ q, s = Str.rstrip s +:+ q.
Proof.
  induction s as [|c s [q Hq]]; simpl; [by exists ""|].
  destruct (Str.rstrip s) as [|a r] eqn:Hr.
  - destruct (Char.isspace c); [by exists (String c s)|].
    exists s. done.
  - exists q. simpl in *. by rewrite <- Hq.
Qed.

Lemma strip_occurs s : occurs_in (Str.strip s) s.
Proof.
  unfold Str.strip. destruct (rstrip_prefix s) as [q Hq].
  destruct (lstrip_suffix (Str.rstrip s)) as [p Hp].
  exists p, q. rewrite <- string_app_assoc, <- Hp. done.
Qed.

(** ** HackerTarget, exactly *)

(** X7.  What HackerTarget returns is exactly this: when the answer is 200
    and its body, lowered, does not mention [error], the first
    comma-separated field of each line that has a comma, trimmed and
    lowered, if it ends with the domain; nothing otherwise.  The lines
    without a comma and the fields after the first play no part. *)
Theorem hackertarget_result_exactly net domain h :
  h ∈ query_hackertarget net domain
  ↔ ∃ field, hackertarget_candidate net domain field
             ∧ h = Str.lower (Str.strip field)
             ∧ Str.endswith h domain = true.
Proof.
  split; [apply query_hackertarget_sound|].
  intros (field & Hfield & -> & Hends). by apply query_hackertarget_complete.
Qed.

Lemma hackertarget_result_exactly_witness :
  let net := answers [(hackertarget_url "example.com",
                       ok_text ("no comma here" +:+ String newline
                                " Api.Example.com ,93.184.216.34,extra" +:+ String newline
                                "other.org,93.184.216.35"))] in
  "api.example.com" ∈ query_hackertarget net "example.com".
Proof.
  intros net. apply hackertarget_result_exactly. exists " Api.Example.com ".
  split; [|split; vm_compute; reflexivity].
  exists (Response 200 ("no comma here" +:+ String newline
                        " Api.Example.com ,93.184.216.34,extra" +:+ String newline
                        "other.org,93.184.216.35") None),
    " Api.Example.com ,93.184.216.34,extra".
  split; [vm_compute; reflexivity|]. split; [reflexivity|].
  split; [vm_compute; reflexivity|].
  split; [apply (bool_decide_unpack _); vm_compute; exact I|].
  split; vm_compute; reflexivity.
Defined.

(** X8.  The guard of HackerTarget is blind to letter case: a body in
    which [error] occurs in any mix of cases ([ERROR], [Error], ...) gives
    the empty set. *)
Theorem hackertarget_error_in_any_case net domain r before word after :
  net (hackertarget_url domain) = Answer r →
  Str.lower word = "error" →
  text r = before +:+ word +:+ after →
  query_hackertarget net domain = ∅.
Proof.
  intros Hnet Hword Htext.
  assert (Herr : Str.contains (Str.lower (text r)) "error" = true).
  { apply occurs_in_contains. rewrite <- Hword. apply occurs_in_lower.
    by exists before, after. }
  lay_bare. rewrite Hnet. simpl. by rewrite Herr, andb_false_r.
Qed.

Lemma hackertarget_error_in_any_case_witness :
  query_hackertarget
    (answers [(hackertarget_url "example.com",
               ok_text ("www.example.com,93.184.216.34" +:+ String newline
                        "API Error: quota"))])
    "example.com"
  = ∅.
Proof.
  eapply (hackertarget_error_in_any_case _ "example.com" _
            ("www.example.com,93.184.216.34" +:+ String newline "API ")
            "Error" ": quota"); vm_compute; reflexivity.
Defined.

(** X9.  HackerTarget returns nothing for a domain whose name contains
    [error] ([terror.org], [error.example.com]): a host that ends with the
    domain would itself be a mention of [error] in the body. *)
Theorem hackertarget_empty_for_domain_with_error net domain :
  Str.contains domain "error" = true → query_hackertarget net domain = ∅.
Proof.
  intros Hdomain%occurs_in_contains. apply elem_of_equiv_empty_L. intros h Hh.
  apply query_hackertarget_sound in Hh
    as (field & (r & line & _ & _ & Herr & Hline & _ & ->) & -> & Hends).
  assert (Hbody : occurs_in (Str.lower (Str.strip (hd "" (Str.split "," line))))
                            (Str.lower (text r))).
  { apply occurs_in_lower.
    eapply occurs_in_trans; [apply strip_occurs|].
    eapply occurs_in_trans; [|by eapply split_elem_occurs].
    destruct (split_head_prefix "," line) as [q Hq]. by exists "", q. }
  assert (Hmention : occurs_in "error" (Str.lower (text r))).
  { eapply occurs_in_trans; [exact Hdomain|].
    eapply occurs_in_trans; [by apply occurs_in_suffix|exact Hbody]. }
  apply occurs_in_contains in Hmention. congruence.
Qed.

Lemma hackertarget_empty_for_domain_with_error_witness :
  query_hackertarget
    (answers [(hackertarget_url "terror.org", ok_text "www.terror.org,93.184.216.34")])
    "terror.org"
  = ∅.
Proof.
  apply hackertarget_empty_for_domain_with_error. vm_compute. reflexivity.
Defined.

(** ** The pattern scan, from the page to the result *)

Lemma findall_from_occurs domain skip s m :
  m ∈ Re.findall_from domain skip s → occurs_in m s.
Proof.
  revert skip; induction s as [|c s IH]; intros skip.
  - simpl. by intros ?%elem_of_nil.
  - assert (Hlater : ∀ n, m ∈ Re.findall_from domain n s → occurs_in m (String c s)).
    { intros n (p & q & ->)%IH. by exists (String c p), q. }
    cbn [Re.findall_from]. destruct skip as [|n]; [|apply Hlater].
    destruct (Re.match_label domain (String c s)) as [k|]; [|apply Hlater].
    intros [->|?]%elem_of_cons; [|by eapply Hlater].
    exists "", (Str.drop (k + 1 + String.length domain) (String c s)).
    by rewrite take_drop.
Qed.

(** X10.  The pattern scan invents nothing: every hostname RapidDNS
    returns is a piece of the page of a 200 answer, lowered, and is longer
    than the domain. *)
Theorem pattern_scan_returns_pieces_of_the_page net domain h :
  h ∈ query_rapiddns net domain →
  ∃ r m, net (rapiddns_url domain) = Answer r ∧ status_code r = 200%Z
         ∧ occurs_in m (text r) ∧ h = Str.lower m
         ∧ (String.length domain < String.length h)%nat.
Proof.
  intros Hh. pose proof (query_rapiddns_dotted _ _ _ Hh) as (l & Hl & _ & Hform).
  apply query_rapiddns_sound in Hh as (m & (r & Hnet & Hst & Hm) & ->).
  exists r, m. repeat split; [done..|by eapply findall_from_occurs|].
  rewrite Hform. unfold Str.lower. rewrite !string_app_length, map_length.
  destruct l; [done|simpl; lia].
Qed.

Lemma pattern_scan_returns_pieces_of_the_page_witness :
  "mail.example.com" ∈ query_rapiddns page_net "example.com"
  ∧ occurs_in "Mail.Example.com"
      "<td>Mail.Example.com</td><td>notexample.com</td><td>example.com</td>".
Proof.
  assert (Hin : "mail.example.com" ∈ query_rapiddns page_net "example.com")
    by (apply (bool_decide_unpack _); vm_compute; exact I).
  split; [exact Hin|].
  destruct (pattern_scan_returns_pieces_of_the_page _ _ _ Hin)
    as (r & m & _ & _ & _ & _ & _).
  apply occurs_in_contains. vm_compute. reflexivity.
Defined.

Lemma label_char_lower_eq a c :
  Char.lower a = Char.lower c → Re.label_char a = Re.label_char c.
Proof. intros Heq. by rewrite <- (label_char_lower a), Heq, label_char_lower. Qed.

Lemma outside_not_dot c : Re.label_char c = false → Char.exactly 46 c = false.
Proof. unfold Re.label_char. by intros [[_ ?]%orb_false_iff _]%orb_false_iff. Qed.

Section outside.
Context (domain : string) (c : ascii) (b : string).
Hypothesis domain_label : label_run domain = true.
Hypothesis c_outside : Re.label_char c = false.

Lemma literal_before_outside lit x :
  label_run lit = true → Re.literal lit (x +:+ String c b) = Re.literal lit x.
Proof.
  revert x; induction lit as [|a lit IH]; intros x; [done|].
  cbn [label_run]. intros [Ha Hlit]%andb_true_iff.
  destruct x as [|y x]; simpl; [|by rewrite IH].
  destruct (Ascii.eqb_spec (Char.lower a) (Char.lower c)) as [Heq|]; [|done].
  apply label_char_lower_eq in Heq. congruence.
Qed.

Lemma tail_before_outside x :
  Re.tail domain (x +:+ String c b) = Re.tail domain x.
Proof.
  destruct x as [|y x]; simpl.
  - by rewrite outside_not_dot.
  - by rewrite literal_before_outside.
Qed.

Lemma match_label_before_outside x :
  Re.match_label domain (x +:+ String c b) = Re.match_label domain x.
Proof.
  induction x as [|y x IH]; simpl; [by rewrite c_outside|].
  by rewrite IH, tail_before_outside.
Qed.

End outside.

Lemma match_label_length domain s k :
  Re.match_label domain s = Some k →
  (1 ≤ k ∧ k + 1 + String.length domain ≤ String.length s)%nat.
Proof.
  intros (l & d & rest & -> & <- & Hl & _ & <- & _)%match_label_spec.
  rewrite !string_app_length. simpl. destruct l; [done|simpl; lia].
Qed.

Lemma take_app_le (n : nat) s1 s2 :
  (n ≤ String.length s1)%nat → Str.take n (s1 +:+ s2) = Str.take n s1.
Proof.
  revert s1; induction n as [|n IH]; intros [|a s1]; simpl; try done; try lia.
  intros ?. rewrite IH; [done|lia].
Qed.

Lemma findall_from_before_outside domain c b (skip : nat) a :
  label_run domain = true → Re.label_char c = false →
  (skip ≤ String.length a)%nat →
  Re.findall_from domain skip (a +:+ String c b)
  = (Re.findall_from domain skip a ++ Re.findall_from domain 0 b)%list.
Proof.
  intros Hdomain Hc. revert skip; induction a as [|y a IH]; intros skip Hskip.
  - destruct skip; [|simpl in Hskip; lia]. simpl. by rewrite Hc.
  - change (String y a +:+ String c b) with (String y (a +:+ String c b)).
    cbn [Re.findall_from]. simpl in Hskip. destruct skip as [|n]; [|apply IH; lia].
    change (String y (a +:+ String c b)) with (String y a +:+ String c b).
    rewrite (match_label_before_outside domain c b Hdomain Hc).
    destruct (Re.match_label domain (String y a)) as [k|] eqn:Hk; [|apply IH; lia].
    apply match_label_length in Hk. simpl in Hk.
    rewrite take_app_le by (simpl; lia). rewrite IH by lia. done.
Qed.

Lemma literal_complete lit d rest :
  Str.lower d = Str.lower lit → Re.literal lit (d +:+ rest) = true.
Proof.
  unfold Str.lower. revert d; induction lit as [|a lit IH]; intros d; [done|].
  destruct d as [|y d]; simpl; [done|]. intros [= Hy Hd].
  rewrite Hy, IH by done. by rewrite Ascii.eqb_refl.
Qed.

Lemma match_label_host domain l d after :
  label_run domain = true → l ≠ "" → label_run l = true →
  Str.lower d = Str.lower domain → starts_outside after →
  Re.match_label domain (l +:+ "." +:+ d +:+ after) = Some (String.length l).
Proof.
  intros Hdomain Hl Hrun Hd Hafter.
  assert (Hlen : String.length d = String.length domain).
  { apply (f_equal String.length) in Hd. unfold Str.lower in Hd.
    by rewrite !map_length in Hd. }
  assert (Hshort : Re.match_label domain ("." +:+ d +:+ after) = None).
  { assert (Re.match_label domain ("." +:+ d) = None) as Hnone.
    { destruct (Re.match_label domain ("." +:+ d)) as [k|] eqn:Hk; [|done].
      apply match_label_length in Hk. simpl in Hk. lia. }
    destruct after as [|c b]; [by rewrite string_app_nil|].
    change ("." +:+ d +:+ String c b) with (String "." (d +:+ String c b)).
    change (String "." (d +:+ String c b)) with (String "." d +:+ String c b).
    by rewrite (match_label_before_outside domain c b Hdomain Hafter). }
  induction l as [|y l IH]; [done|].
  cbn [label_run] in Hrun. apply andb_true_iff in Hrun as [Hy Hrun].
  change (String y l +:+ "." +:+ d +:+ after)
    with (String y (l +:+ "." +:+ d +:+ after)).
  cbn [Re.match_label]. rewrite Hy. destruct l as [|z l].
  - change ("" +:+ "." +:+ d +:+ after) with ("." +:+ d +:+ after).
    rewrite Hshort. simpl. by rewrite literal_complete.
  - by rewrite IH.
Qed.

(** X11.  The pattern scan finds every host that stands free in the page.
    For a domain made of word characters, dots and hyphens: when the page of
    a 200 answer holds a non-empty run of such characters, a dot and the
    domain in any letter case, with the page's start or a character outside
    the class before it and the page's end or such a character after it,
    RapidDNS returns that host, lowered. *)
Theorem pattern_scan_finds_delimited_host net domain r before l d after :
  net (rapiddns_url domain) = Answer r → status_code r = 200%Z →
  text r = before +:+ l +:+ "." +:+ d +:+ after →
  label_run domain = true →
  l ≠ "" → label_run l = true →
  Str.lower d = Str.lower domain →
  ends_outside before → starts_outside after →
  Str.lower (l +:+ "." +:+ d) ∈ query_rapiddns net domain.
Proof.
  intros Hnet Hst Htext Hdomain Hl Hrun Hd Hbefore Hafter.
  apply query_rapiddns_complete. exists r. split; [done|]. split; [done|].
  assert (Hhost : l +:+ "." +:+ d
                  ∈ Re.findall_from domain 0 (l +:+ "." +:+ d +:+ after)).
  { pose proof (match_label_host domain l d after Hdomain Hl Hrun Hd Hafter) as Hk.
    destruct l as [|y l]; [done|].
    change (String y l +:+ "." +:+ d +:+ after)
      with (String y (l +:+ "." +:+ d +:+ after)) in *.
    cbn [Re.findall_from]. rewrite Hk.
    replace (String.length (String y l) + 1 + String.length domain)
      with (String.length (String y l +:+ "." +:+ d)).
    - change (String y (l +:+ "." +:+ d +:+ after))
        with (String y l +:+ "." +:+ d +:+ after).
      replace (String y l +:+ "." +:+ d +:+ after)
        with ((String y l +:+ "." +:+ d) +:+ after)
        by (by rewrite !string_app_assoc).
      rewrite take_app_length. by left.
    - rewrite !string_app_length. simpl.
      apply (f_equal String.length) in Hd. unfold Str.lower in Hd.
      rewrite !map_length in Hd. lia. }
  rewrite Htext. unfold Re.findall.
  destruct Hbefore as [->|(b' & c & -> & Hc)]; [done|].
  rewrite string_app_assoc. simpl.
  rewrite findall_from_before_outside by (done || lia).
  apply elem_of_app. by right.
Qed.

Lemma pattern_scan_finds_delimited_host_witness :
  "mail.example.com" ∈ query_rapiddns page_net "example.com".
Proof.
  apply (pattern_scan_finds_delimited_host page_net "example.com"
           (Response 200
              "<td>Mail.Example.com</td><td>notexample.com</td><td>example.com</td>"
              None)
           "<td>" "Mail" "Example.com"
           "</td><td>notexample.com</td><td>example.com</td>").
  - vm_compute. reflexivity.
  - reflexivity.
  - vm_compute. reflexivity.
  - vm_compute. reflexivity.
  - discriminate.
  - vm_compute. reflexivity.
  - vm_compute. reflexivity.
  - right. exists "<td", ">"%char. split; vm_compute; reflexivity.
  - vm_compute. reflexivity.
Defined.

(** ** One hostname per line *)

Lemma contains_char_lower c s :
  (∀ a, Ascii.eqb c (Char.lower a) = Ascii.eqb c a) →
  Str.contains (Str.lower s) (String c "") = Str.contains s (String c "").
Proof.
  intros Hc. unfold Str.lower. induction s as [|a s IH]; [done|].
  cbn [Str.map]. by rewrite !contains_char_cons, Hc, IH.
Qed.

Lemma newline_lower a : Ascii.eqb newline (Char.lower a) = Ascii.eqb newline a.
Proof. by_cases_on_char a. Qed.

Lemma newline_not_label a : Re.label_char a = true → Ascii.eqb newline a = false.
Proof. by_cases_on_char a. Qed.

Lemma occurs_in_without c x s :
  occurs_in x s → Str.contains s (String c "") = false →
  Str.contains x (String c "") = false.
Proof.
  intros (p & q & ->). rewrite !contains_char_app.
  by intros [_ [? _]%orb_false_iff]%orb_false_iff.
Qed.

Lemma split_elem_without sep s x :
  x ∈ Str.split sep s → Str.contains x (String sep "") = false.
Proof.
  revert x; induction s as [|c s IH]; intros x; simpl.
  - by intros ->%list_elem_of_singleton.
  - destruct (Ascii.eqb c sep) eqn:Hc.
    + intros [->|?]%elem_of_cons; [done|auto].
    + assert (Ascii.eqb sep c = false) as Hc' by (by rewrite Ascii.eqb_sym).
      destruct (Str.split sep s) as [|first rest].
      * intros ->%list_elem_of_singleton. by rewrite contains_char_cons, Hc'.
      * intros [->|?]%elem_of_cons.
        -- rewrite contains_char_cons, Hc'. apply IH. by left.
        -- apply IH. by right.
Qed.

Lemma label_run_without_newline l :
  label_run l = true → Str.contains l (String newline "") = false.
Proof.
  induction l as [|a l IH]; [done|]. cbn [label_run].
  intros [Ha Hl]%andb_true_iff.
  by rewrite contains_char_cons, (newline_not_label a Ha), IH.
Qed.

(** X12.  No hostname from crt.sh or from HackerTarget contains a newline,
    nor does one from RapidDNS when the domain has none: each fits on one
    line of the output. *)
Theorem hostnames_fit_on_one_line p net domain h :
  h ∈ query p net domain →
  p = CrtSh ∨ p = HackerTarget
  ∨ (p = RapidDNS ∧ Str.contains domain (String newline "") = false) →
  Str.contains h (String newline "") = false.
Proof.
  intros Hh [->|[->|[-> Hdomain]]]; simpl in Hh.
  - apply query_crtsh_sound in Hh
      as (name & (r & data & entries & entry & field & _ & _ & _ & _ & _ & _ & Hname)
          & -> & _).
    rewrite (contains_char_lower _ _ newline_lower).
    eapply occurs_in_without; [apply strip_occurs|by eapply split_elem_without].
  - apply query_hackertarget_sound in Hh
      as (field & (r & line & _ & _ & _ & Hline & _ & ->) & -> & _).
    rewrite (contains_char_lower _ _ newline_lower).
    eapply occurs_in_without; [apply strip_occurs|].
    eapply occurs_in_without; [|by eapply split_elem_without].
    destruct (split_head_prefix "," line) as [q Hq]. by exists "", q.
  - apply query_rapiddns_dotted in Hh as (l & _ & Hl & ->).
    rewrite !contains_char_app, (contains_char_lower _ _ newline_lower), Hdomain.
    by rewrite label_run_without_newline.
Qed.

Lemma hostnames_fit_on_one_line_witness :
  "api.example.com" ∈ query HackerTarget partial_net "example.com"
  ∧ Str.contains "api.example.com" (String newline "") = false.
Proof.
  assert (Hin : "api.example.com" ∈ query HackerTarget partial_net "example.com")
    by (apply (bool_decide_unpack _); vm_compute; exact I).
  split; [exact Hin|].
  apply (hostnames_fit_on_one_line HackerTarget partial_net "example.com" _ Hin).
  right. by left.
Defined.

Lemma split_without sep s :
  Str.contains s (String sep "") = false → Str.split sep s = [s].
Proof.
  induction s as [|c s IH]; [done|].
  rewrite contains_char_cons. intros [Hc Hs]%orb_false_iff.
  simpl. rewrite Ascii.eqb_sym, Hc. by rewrite IH.
Qed.

Lemma split_app_sep sep s rest :
  Str.contains s (String sep "") = false →
  Str.split sep (s +:+ String sep rest) = s :: Str.split sep rest.
Proof.
  induction s as [|c s IH].
  - intros _. simpl. by rewrite Ascii.eqb_refl.
  - rewrite contains_char_cons. intros [Hc Hs]%orb_false_iff.
    simpl. rewrite Ascii.eqb_sym, Hc. by rewrite IH.
Qed.

Lemma split_join sep l :
  l ≠ [] → (∀ h, h ∈ l → Str.contains h (String sep "") = false) →
  Str.split sep (Str.join (String sep "") l) = l.
Proof.
  induction l as [|p l IH]; [done|]. intros _ Hl.
  destruct l as [|q l].
  - simpl. apply split_without, Hl. by left.
  - change (Str.join (String sep "") (p :: q :: l))
      with (p +:+ String sep "" +:+ Str.join (String sep "") (q :: l)).
    simpl (String sep "" +:+ _).
    rewrite split_app_sep by (apply Hl; by left).
    f_equal. apply IH; [done|]. intros h Hh. apply Hl. by right.
Qed.

Lemma main_returns args net completion flt fs l :
  (main args net completion flt fs).2 = inr l →
  l = sorted (enumerate_subdomains net completion
                (Str.strip (Str.lower (arg_domain args))))
  ∧ ∀ path, output_given args = Some path →
            files (main args net completion flt fs).1 !! path
            = Some (Str.join (String newline "") l).
Proof.
  unfold main. destruct (output_given args) as [path|].
  - rewrite with_open_write.
    destruct (open_fails flt path), (write_fails flt path); simpl; try done.
    intros [= <-]. split; [done|]. intros ? [= <-]. by rewrite lookup_insert_eq.
  - simpl. by intros [= <-].
Qed.

(** X13.  The output file reads back: when [main] returns a list that is
    not empty and whose hostnames have no newline, splitting the content of
    the file on newlines gives that list again, in order; when it returns
    the empty list the file is empty. *)
Theorem output_file_reads_back args net completion flt fs path l :
  output_given args = Some path →
  (main args net completion flt fs).2 = inr l →
  (∀ h, h ∈ l → Str.contains h (String newline "") = false) →
  ∃ content,
    files (main args net completion flt fs).1 !! path = Some content
    ∧ (l ≠ [] → Str.split newline content = l)
    ∧ (l = [] → content = "").
Proof.
  intros Hout [_ Hfile]%main_returns Hl.
  exists (Str.join (String newline "") l). split; [by apply Hfile|]. split.
  - intros Hne. by apply split_join.
  - by intros ->.
Qed.

Lemma output_file_reads_back_witness :
  let args := Args "example.com" (Some "out.txt") in
  ∃ content,
    files (main args partial_net some_completion picky busy_fs).1 !! "out.txt"
    = Some content
    ∧ Str.split newline content = ["api.example.com"; "shop.example.com"].
Proof.
  intros args.
  destruct (output_file_reads_back args partial_net some_completion picky busy_fs
              "out.txt" ["api.example.com"; "shop.example.com"])
    as (content & Hfile & Hsplit & _).
  - reflexivity.
  - vm_compute. reflexivity.
  - intros h Hh. apply elem_of_cons in Hh as [->|Hh]; [vm_compute; reflexivity|].
    apply list_elem_of_singleton in Hh as ->. vm_compute. reflexivity.
  - exists content. split; [exact Hfile|]. by apply Hsplit.
Defined.

(** X14.  A run asked for an output file it cannot open is lost to the
    caller: [main] raises [OSError] in place of returning the hostnames,
    and leaves every file as it was.  In any run [main] changes no file
    but the one at the output path. *)
Theorem unopenable_output_loses_the_run args net completion flt fs path :
  output_given args = Some path →
  (open_fails flt path = true →
   main args net completion flt fs = (fs, inl OSError))
  ∧ ∀ other, other ≠ path →
      files (main args net completion flt fs).1 !! other = files fs !! other.
Proof.
  intros Hout. unfold main. rewrite Hout, with_open_write.
  destruct (open_fails flt path), (write_fails flt path); simpl;
    (split; [done|]); intros other Hother; by rewrite ?lookup_insert_ne.
Qed.

Lemma unopenable_output_loses_the_run_witness :
  main (Args "example.com" (Some "/forbidden/out.txt")) partial_net
    some_completion picky busy_fs
  = (busy_fs, inl OSError).
Proof.
  apply (unopenable_output_loses_the_run _ _ _ _ _ "/forbidden/out.txt");
    reflexivity.
Defined.

(** ** Trimmed names *)

Lemma lstrip_lower s : Str.lstrip (Str.lower s) = Str.lower (Str.lstrip s).
Proof.
  unfold Str.lower. induction s as [|c s IH]; simpl; [done|].
  rewrite isspace_lower. by destruct (Char.isspace c).
Qed.

Lemma rstrip_lower s : Str.rstrip (Str.lower s) = Str.lower (Str.rstrip s).
Proof.
  unfold Str.lower. induction s as [|c s IH]; simpl; [done|].
  rewrite IH, isspace_lower.
  destruct (Str.rstrip s); simpl; [by destruct (Char.isspace c)|done].
Qed.

Lemma strip_lower s : Str.strip (Str.lower s) = Str.lower (Str.strip s).
Proof. unfold Str.strip. by rewrite rstrip_lower, lstrip_lower. Qed.

Lemma lstrip_idemp s : Str.lstrip (Str.lstrip s) = Str.lstrip s.
Proof.
  induction s as [|c s IH]; simpl; [done|].
  destruct (Char.isspace c) eqn:Hc; [done|]. simpl. by rewrite Hc.
Qed.

Lemma rstrip_idemp s : Str.rstrip (Str.rstrip s) = Str.rstrip s.
Proof.
  induction s as [|c s IH]; simpl; [done|].
  destruct (Str.rstrip s) as [|a r] eqn:Hr.
  - destruct (Char.isspace c) eqn:Hc; simpl; [done|by rewrite Hc].
  - change (Str.rstrip (String c (String a r))) with
      (match Str.rstrip (String a r) with
       | "" => if Char.isspace c then "" else String c ""
       | t => String c t
       end).
    by rewrite IH.
Qed.

Lemma rstrip_lstrip_fixed t : Str.rstrip t = t → Str.rstrip (Str.lstrip t) = Str.lstrip t.
Proof.
  induction t as [|c t IH]; [done|]. intros Ht.
  cbn [Str.lstrip]. destruct (Char.isspace c) eqn:Hc; [|done].
  apply IH. simpl in Ht. rewrite Hc in Ht.
  destruct (Str.rstrip t); [done|]. by injection Ht.
Qed.

Lemma strip_idemp s : Str.strip (Str.strip s) = Str.strip s.
Proof.
  unfold Str.strip.
  rewrite (rstrip_lstrip_fixed (Str.rstrip s)) by apply rstrip_idemp.
  apply lstrip_idemp.
Qed.

(** X15.  The hostnames crt.sh and HackerTarget return carry no blank at
    either end: trimming one changes nothing. *)
Theorem text_providers_return_trimmed_names net domain h :
  h ∈ query_crtsh net domain ∨ h ∈ query_hackertarget net domain →
  Str.strip h = h.
Proof.
  intros [Hh|Hh].
  - apply query_crtsh_sound in Hh as (name & _ & -> & _).
    by rewrite strip_lower, strip_idemp.
  - apply query_hackertarget_sound in Hh as (field & _ & -> & _).
    by rewrite strip_lower, strip_idemp.
Qed.

Lemma text_providers_return_trimmed_names_witness :
  let net := answers [(hackertarget_url "example.com",
                       ok_text "  www.example.com  ,93.184.216.34")] in
  "www.example.com" ∈ query_hackertarget net "example.com"
  ∧ Str.strip "www.example.com" = "www.example.com".
Proof.
  intros net.
  assert (Hin : "www.example.com" ∈ query_hackertarget net "example.com")
    by (apply (bool_decide_unpack _); vm_compute; exact I).
  split; [exact Hin|].
  apply (text_providers_return_trimmed_names net "example.com"). by right.
Defined.

(** ** A body of another shape *)

(** X16.  crt.sh returns nothing for a JSON body that is not a list (an
    object such as an error report, a string, a number, [null], a
    boolean). *)
Theorem crtsh_empty_for_body_that_is_no_list net domain r data :
  net (crtsh_url domain) = Answer r →
  parsed r = Some data →
  (∀ items, data ≠ JArray items) →
  query_crtsh net domain = ∅.
Proof.
  intros Hnet Hdata Hshape. lay_bare. rewrite Hnet. simpl.
  destruct (status_code r =? 200)%Z; [|done]. simpl. rewrite Hdata.
  destruct data as [| | |s|items|members]; simpl; try done.
  - by destruct s.
  - by destruct (Hshape items).
  - by destruct members.
Qed.

Lemma crtsh_empty_for_body_that_is_no_list_witness :
  query_crtsh
    (answers [(crtsh_url "example.com",
               ok_json (JObject [("error", JString "rate limited");
                                 ("name_value", JString "a.example.com")]))])
    "example.com"
  = ∅.
Proof.
  eapply crtsh_empty_for_body_that_is_no_list; [reflexivity..|].
  intros items. discriminate.
Defined.

(** X17.  AlienVault returns nothing for a JSON body that is not an object,
    and nothing for an object that has no [passive_dns]. *)
Theorem alienvault_empty_without_passive_dns net domain r data :
  net (alienvault_url domain) = Answer r →
  parsed r = Some data →
  (∀ members, data = JObject members → Py.lookup "passive_dns" members = None) →
  query_alienvault net domain = ∅.
Proof.
  intros Hnet Hdata Hshape. lay_bare. rewrite Hnet. simpl.
  destruct (status_code r =? 200)%Z; [|done]. simpl. rewrite Hdata.
  destruct data as [| | |s|items|members]; simpl; try done.
  by rewrite (Hshape members eq_refl).
Qed.

Lemma alienvault_empty_without_passive_dns_witness :
  query_alienvault
    (answers [(alienvault_url "example.com",
               ok_json (JArray [JObject [("hostname", JString "a.example.com")]]))])
    "example.com"
  = ∅.
Proof.
  eapply alienvault_empty_without_passive_dns; [reflexivity..|].
  intros members. discriminate.
Defined.

(** * The pattern scan beyond Latin-1 *)

(** ** What a match is *)

#[local] Open Scope list_scope.

Lemma uni_lower_app s1 s2 : Uni.lower (s1 ++ s2) = Uni.lower s1 ++ Uni.lower s2.
Proof. apply bind_app. Qed.

Lemma uni_lower_cons c s : Uni.lower (c :: s) = Uni.lower_char c ++ Uni.lower s.
Proof. apply bind_cons. Qed.

Lemma uni_lower_length s : (length s ≤ length (Uni.lower s))%nat.
Proof.
  induction s as [|c s IH]; [done|].
  rewrite uni_lower_cons, length_app. destruct c; simpl; lia.
Qed.

Lemma uni_literal_spec lit s :
  Uni.literal lit s = true → ∃ d rest, s = d ++ rest ∧ Uni.matches lit d.
Proof.
  revert s; induction lit as [|l lit IH]; intros s; simpl.
  - intros _. exists [], s. split; [done|constructor].
  - destruct s as [|ch s]; [done|].
    intros [Hch (d & rest & -> & Hd)%IH]%andb_true_iff.
    exists (ch :: d), rest. split; [done|by constructor].
Qed.

Lemma uni_tail_spec domain s :
  Uni.tail domain s = true →
  ∃ d rest, s = Uni.dot :: d ++ rest ∧ Uni.matches domain d.
Proof.
  destruct s as [|c s]; simpl; [done|].
  intros [->%bool_decide_eq_true (d & rest & -> & Hd)%uni_literal_spec]%andb_true_iff.
  by exists d, rest.
Qed.

Lemma uni_match_label_spec domain s k :
  Uni.match_label domain s = Some k →
  ∃ l d rest, s = l ++ Uni.dot :: d ++ rest ∧ length l = k ∧ l ≠ []
              ∧ Forall (λ c, Uni.label_char c = true) l ∧ Uni.matches domain d.
Proof.
  revert k; induction s as [|c s IH]; intros k; simpl; [done|].
  destruct (Uni.label_char c) eqn:Hc; [|done].
  destruct (Uni.match_label domain s) as [k'|].
  - intros [= <-].
    destruct (IH k' eq_refl) as (l & d & rest & -> & <- & _ & Hl & Hd).
    exists (c :: l), d, rest. repeat split; [done|by constructor|done].
  - destruct (Uni.tail domain s) eqn:Htail; [|done]. intros [= <-].
    apply uni_tail_spec in Htail as (d & rest & -> & Hd).
    exists [c], d, rest. repeat split; [done|by repeat constructor|done].
Qed.

Lemma uni_findall_from_spec domain skip s m :
  m ∈ Uni.findall_from domain skip s →
  ∃ l d, m = l ++ Uni.dot :: d ∧ l ≠ []
         ∧ Forall (λ c, Uni.label_char c = true) l ∧ Uni.matches domain d.
Proof.
  revert skip; induction s as [|c s IH]; intros skip.
  - simpl. by intros ?%elem_of_nil.
  - cbn [Uni.findall_from]. destruct skip as [|n]; [|apply IH].
    destruct (Uni.match_label domain (c :: s)) as [k|] eqn:Hk; [|apply IH].
    intros [->|?]%elem_of_cons; [|by eapply IH].
    apply uni_match_label_spec in Hk as (l & d & rest & -> & <- & Hl & Hrun & Hd).
    exists l, d. split; [|done].
    replace (l ++ Uni.dot :: d ++ rest) with ((l ++ Uni.dot :: d) ++ rest)
      by (by rewrite <- app_assoc).
    apply take_app_length'. rewrite length_app. simpl.
    rewrite (Forall2_length _ _ _ Hd). lia.
Qed.

Lemma uni_scan_spec domain page h :
  h ∈ Uni.scan domain page →
  ∃ l d, l ≠ [] ∧ Forall (λ c, Uni.label_char c = true) l
         ∧ Uni.matches domain d ∧ h = Uni.lower (l ++ Uni.dot :: d).
Proof.
  intros (m & -> & Hm)%list_elem_of_fmap.
  apply uni_findall_from_spec in Hm as (l & d & -> & ? & ? & ?). by exists l, d.
Qed.

(** ** The 8-bit scan is this scan on Latin-1 text *)

Lemma of_string_app s1 s2 :
  Uni.of_string (s1 +:+ s2) = Uni.of_string s1 ++ Uni.of_string s2.
Proof. induction s1 as [|a s1 IH]; simpl; [done|by rewrite IH]. Qed.

Lemma of_string_length s : length (Uni.of_string s) = String.length s.
Proof. induction s as [|a s IH]; simpl; [done|by rewrite IH]. Qed.

Lemma of_string_take (n : nat) s :
  take n (Uni.of_string s) = Uni.of_string (Str.take n s).
Proof.
  revert s; induction n as [|n IH]; intros [|a s]; simpl; try done.
  by rewrite IH.
Qed.

Lemma of_string_lower s : Uni.lower (Uni.of_string s) = Uni.of_string (Str.lower s).
Proof.
  unfold Str.lower. induction s as [|a s IH]; [done|].
  cbn [Uni.of_string Str.map]. by rewrite uni_lower_cons, IH.
Qed.

#[global] Instance of_string_inj : Inj (=) (=) Uni.of_string.
Proof.
  intros s1. induction s1 as [|a s1 IH]; intros [|b s2]; simpl; try done.
  intros [= -> ?]. f_equal. by apply IH.
Qed.

Lemma literal_char_latin a b :
  Uni.literal_char (Uni.Latin a) (Uni.Latin b)
  = Ascii.eqb (Char.lower a) (Char.lower b).
Proof.
  unfold Uni.literal_char, Uni.fold_char, Uni.equals_of.
  destruct (Ascii.eqb_spec (Char.lower a) (Char.lower b)) as [->|Hne].
  - apply bool_decide_eq_true. by left.
  - apply bool_decide_eq_false. intros [[= ?]|Hin]%elem_of_cons; [done|].
    destruct (Ascii.eqb (Char.lower a) "i"), (Ascii.eqb (Char.lower a) "s");
      repeat match goal with
             | H : _ ∈ _ :: _ |- _ => apply elem_of_cons in H as [[=]|H]
             | H : _ ∈ [] |- _ => by apply elem_of_nil in H
             end.
Qed.

Lemma dot_latin c : bool_decide (Uni.Latin c = Uni.dot) = Char.exactly 46 c.
Proof.
  destruct (Ascii.eqb_spec c ".") as [->|Hne]; [done|].
  rewrite bool_decide_eq_false_2 by (by intros [=]).
  symmetry. revert Hne. by_cases_on_char c; by intros [].
Qed.

Lemma literal_latin lit s :
  Uni.literal (Uni.of_string lit) (Uni.of_string s) = Re.literal lit s.
Proof.
  revert s; induction lit as [|a lit IH]; intros [|b s]; simpl; try done.
  by rewrite literal_char_latin, IH.
Qed.

Lemma tail_latin domain s :
  Uni.tail (Uni.of_string domain) (Uni.of_string s) = Re.tail domain s.
Proof. destruct s as [|c s]; simpl; [done|]. by rewrite dot_latin, literal_latin. Qed.

Lemma match_label_latin domain s :
  Uni.match_label (Uni.of_string domain) (Uni.of_string s) = Re.match_label domain s.
Proof.
  induction s as [|c s IH]; simpl; [done|]. by rewrite IH, tail_latin.
Qed.

Lemma findall_from_latin domain skip s :
  Uni.findall_from (Uni.of_string domain) skip (Uni.of_string s)
  = Uni.of_string <$> Re.findall_from domain skip s.
Proof.
  revert skip; induction s as [|c s IH]; intros skip; [done|].
  cbn [Uni.of_string Uni.findall_from Re.findall_from].
  destruct skip as [|n]; [|apply IH].
  change (Uni.Latin c :: Uni.of_string s) with (Uni.of_string (String c s)).
  rewrite match_label_latin.
  destruct (Re.match_label domain (String c s)) as [k|]; [|apply IH].
  by rewrite fmap_cons, of_string_length, of_string_take, IH.
Qed.

Lemma scan_latin domain text :
  Uni.scan (Uni.of_string domain) (Uni.of_string text)
  = Uni.of_string <$> (Str.lower <$> Re.findall domain text).
Proof.
  unfold Uni.scan, Uni.findall, Re.findall. rewrite findall_from_latin.
  rewrite <- !list_fmap_compose. apply list_fmap_ext. intros _ m _. simpl.
  apply of_string_lower.
Qed.

(** What [query_rapiddns] returns is the scan of the page it is answered,
    for a page and a domain of Latin-1 text. *)
Lemma query_rapiddns_scan net domain h :
  h ∈ query_rapiddns net domain
  ↔ ∃ r, net (rapiddns_url domain) = Answer r ∧ status_code r = 200%Z
         ∧ Uni.of_string h
           ∈ Uni.scan (Uni.of_string domain) (Uni.of_string (text r)).
Proof.
  setoid_rewrite scan_latin. setoid_rewrite (list_elem_of_fmap_inj Uni.of_string).
  split.
  - intros (m & (r & Hnet & Hst & Hm) & ->)%query_rapiddns_sound.
    exists r. split; [done|]. split; [done|]. by apply list_elem_of_fmap_2.
  - intros (r & Hnet & Hst & (m & -> & Hm)%list_elem_of_fmap).
    apply query_rapiddns_complete. by exists r.
Qed.

Lemma findall_dotted domain text m :
  m ∈ Re.findall domain text → dotted_under (Str.lower domain) (Str.lower m).
Proof.
  intros (l & d & -> & Hl & Hrun & Hd)%findall_from_spec.
  exists (Str.lower l). rewrite !lower_app, Hd, label_run_lower.
  split; [|done]. by destruct l.
Qed.

(** ** The wildcard character in the scan *)

Lemma lower_is_star a : Char.lower a = "*"%char → a = "*"%char.
Proof. by_cases_on_char a. Qed.

Lemma uni_lower_char_star c :
  Uni.Latin "*" ∈ Uni.lower_char c → c = Uni.Latin "*".
Proof.
  destruct c as [a| | | | |]; simpl; intros Hin;
    repeat (apply elem_of_cons in Hin as [Heq|Hin]; [try discriminate Heq|]);
    try (by apply elem_of_nil in Hin).
  injection Heq as Heq. symmetry in Heq. by apply lower_is_star in Heq as ->.
Qed.

Lemma uni_literal_char_star l :
  Uni.literal_char l (Uni.Latin "*") = true → l = Uni.Latin "*".
Proof.
  unfold Uni.literal_char. intros Hin%bool_decide_eq_true.
  change (Uni.fold_char (Uni.Latin "*")) with (Uni.Latin "*") in Hin.
  apply elem_of_cons in Hin as [Heq|Hin].
  - destruct l as [a| | | | |]; simpl in Heq; try discriminate Heq.
    injection Heq as Heq. symmetry in Heq. by apply lower_is_star in Heq as ->.
  - destruct (Uni.fold_char l) as [a| | | | |]; simpl in Hin;
      try destruct (Ascii.eqb a "i"); try destruct (Ascii.eqb a "s");
      repeat (apply elem_of_cons in Hin as [Heq|Hin]; [discriminate Heq|]);
      by apply elem_of_nil in Hin.
Qed.

Lemma uni_scan_star domain page h :
  h ∈ Uni.scan domain page → Uni.Latin "*" ∉ domain → Uni.Latin "*" ∉ h.
Proof.
  intros (l & d & _ & Hl & Hd & ->)%uni_scan_spec Hdomain Hin.
  apply list_elem_of_bind in Hin as (c & ->%uni_lower_char_star & Hc).
  apply elem_of_app in Hc as [Hc|Hc].
  - rewrite Forall_forall in Hl. by apply Hl in Hc.
  - apply elem_of_cons in Hc as [Hc|Hc]; [discriminate Hc|].
    apply list_elem_of_lookup in Hc as [i Hi].
    destruct (Forall2_lookup_r _ _ _ _ _ Hd Hi) as (l0 & Hl0 & ->%uni_literal_char_star).
    apply Hdomain. by eapply list_elem_of_lookup_2.
Qed.

(** * The dot boundary, the suffix and the empty domain *)

(** C10, as stated, fails: [IGNORECASE] lets the long s of a page match
    the [s] of the domain and [lower] leaves it a long s, so for the
    lowercase domain [test.com] the scan returns a name that is not a label
    run, a dot and the domain. *)
Lemma long_s_is_matched_and_kept :
  ¬ (∀ domain page h,
       Uni.lower domain = domain →
       h ∈ Uni.scan domain page →
       ∃ l, l ≠ [] ∧ Forall (λ c, Uni.label_char c = true) l
            ∧ h = l ++ Uni.dot :: domain).
Proof.
  intros Hclaim.
  destruct (Hclaim (Uni.of_string "test.com") long_s_page long_s_host)
    as (l & _ & _ & Hform).
  - vm_compute. reflexivity.
  - apply (bool_decide_unpack _). vm_compute. exact I.
  - destruct l as [|x [|y l]]; vm_compute in Hform; try discriminate Hform.
    apply (f_equal length) in Hform. simpl in Hform.
    rewrite length_app in Hform. simpl in Hform. lia.
Qed.

(** C10, amended.  The pattern scan enforces a dot boundary: every
    hostname it returns is the lowering of one or more characters of the
    class (word character, dot, hyphen), a dot, and text that the domain
    matches as a literal under [IGNORECASE].  It is longer than the domain,
    so it is never the bare domain, and for [example.com] it is never
    [notexample.com].  When the page and the lowercase domain are Latin-1
    text the hostname is a label run, a dot and the domain itself. *)
Theorem pattern_scan_dot_boundary domain page h :
  h ∈ Uni.scan domain page →
  (∃ l d, l ≠ [] ∧ Forall (λ c, Uni.label_char c = true) l
          ∧ Uni.matches domain d ∧ h = Uni.lower (l ++ Uni.dot :: d))
  ∧ (length domain < length h)%nat
  ∧ h ≠ domain
  ∧ (domain = Uni.of_string "example.com" → h ≠ Uni.of_string "notexample.com")
  ∧ (∀ dom text,
       domain = Uni.of_string dom → page = Uni.of_string text → lowered dom →
       ∃ host, h = Uni.of_string host ∧ dotted_under dom host).
Proof.
  intros Hh. pose proof (uni_scan_spec _ _ _ Hh) as (l & d & Hl & Hrun & Hd & ->).
  assert (Hlen : (length domain < length (Uni.lower (l ++ Uni.dot :: d)))%nat).
  { pose proof (uni_lower_length (l ++ Uni.dot :: d)) as Hlow.
    rewrite length_app in Hlow. simpl in Hlow.
    rewrite <- (Forall2_length _ _ _ Hd) in Hlow. destruct l; [done|simpl in *; lia]. }
  split; [by exists l, d|]. split; [done|]. split; [|split].
  - intros Heq. rewrite Heq in Hlen. lia.
  - intros -> Heq. apply Forall2_length in Hd. simpl in Hd.
    rewrite uni_lower_app, uni_lower_cons in Heq. simpl in Heq.
    pose proof (uni_lower_length l) as Hl'. pose proof (uni_lower_length d) as Hd'.
    destruct (Uni.lower l) as [|x [|y [|z a]]]; simpl in *.
    + destruct l; [done|simpl in Hl'; lia].
    + discriminate Heq.
    + discriminate Heq.
    + apply (f_equal length) in Heq. simpl in Heq.
      rewrite length_app in Heq. simpl in Heq. lia.
  - intros dom text -> -> Hdom. rewrite scan_latin in Hh.
    apply list_elem_of_fmap in Hh as (host & Hhost & Hin).
    apply list_elem_of_fmap in Hin as (m & -> & Hm%findall_dotted).
    exists (Str.lower m). split; [done|]. by rewrite Hdom in Hm.
Qed.

Lemma pattern_scan_dot_boundary_witness :
  long_s_host ∈ Uni.scan (Uni.of_string "test.com") long_s_page
  ∧ long_s_host ≠ Uni.of_string "test.com"
  ∧ ∃ l d, Uni.matches (Uni.of_string "test.com") d
           ∧ long_s_host = Uni.lower (l ++ Uni.dot :: d).
Proof.
  assert (Hin : long_s_host ∈ Uni.scan (Uni.of_string "test.com") long_s_page)
    by (apply (bool_decide_unpack _); vm_compute; exact I).
  destruct (pattern_scan_dot_boundary _ _ _ Hin)
    as ((l & d & _ & _ & Hd & Hform) & _ & Hne & _).
  split; [exact Hin|]. split; [exact Hne|]. by exists l, d.
Defined.

(** C2, amended.  Every hostname in the result set of one of the three
    suffix-checking extractors ends with the domain.  A hostname has no
    [*] when it comes from crt.sh, which alone filters on it, and when it
    comes from the pattern scan of a domain without [*], on a page of
    Latin-1 text or beyond it. *)
Theorem suffix_checked_results_end_with_domain p net domain h :
  h ∈ query p net domain →
  (p ≠ RapidDNS → Str.endswith h domain = true)
  ∧ (p = CrtSh → Str.contains h "*" = false)
  ∧ (p = RapidDNS → Str.contains domain "*" = false → Str.contains h "*" = false)
  ∧ ∀ dom page h',
      h' ∈ Uni.scan dom page → Uni.Latin "*" ∉ dom → Uni.Latin "*" ∉ h'.
Proof.
  intros Hh. split; [intros Hp; by apply (query_endswith p net)|]. split; [|split].
  - intros ->. by apply query_crtsh_sound in Hh as (? & _ & _ & _ & ?).
  - intros ->. by apply dotted_under_no_star, query_rapiddns_dotted with net.
  - apply uni_scan_star.
Qed.

Lemma suffix_checked_results_end_with_domain_witness :
  "*.example.com" ∈ query HackerTarget wildcard_net "example.com"
  ∧ Str.endswith "*.example.com" "example.com" = true.
Proof.
  assert (Hin : "*.example.com" ∈ query HackerTarget wildcard_net "example.com")
    by (apply (bool_decide_unpack _); vm_compute; exact I).
  split; [exact Hin|].
  apply (suffix_checked_results_end_with_domain HackerTarget wildcard_net
           "example.com" "*.example.com" Hin).
  discriminate.
Defined.


